(** * AACSearch React SDK: networking and query orchestration

    A shallow embedding of the four stateful parts of the SDK

    - the request executor      ([AACSearchClient.request]),
    - the streaming parser      ([AACSearchClientExtended.streamConversationalSearch]),
    - the WebSocket session     ([connectWebSocket] / [disconnectWebSocket]
                                 together with the [useRealtime] hook),
    - the instant-search hook   ([useInstantSearch]),

    followed by the properties established about them.  Asynchronous
    functions are cut at their [await]s: the part before the [await] is a
    state transformer, the continuation is a second transformer that the
    environment triggers with the settled value.  Event handlers are
    transformers of the client/hook state, and a run is a list of events. *)

From Stdlib Require Import ZArith Ascii.
From stdpp Require Import base tactics option list sorting strings pretty gmap.

Local Open Scope Z_scope.
Set Warnings "-register-all".
Set Default Proof Using "Type".

(** ** ECMAScript values used by the SDK *)

Module JS.

(** Strings.  A JavaScript string is represented by its UTF-8 bytes; every
    operation the SDK applies ([split] on a line feed, [startsWith] and
    [slice] with an ASCII prefix, [join], [+]) commutes with that encoding. *)

(** [s.split(sep)] for a one-character separator: the result is never the
    empty array, the empty string gives one empty piece. *)
Fixpoint split (sep : ascii) (s : string) : list string :=
  match s with
  | EmptyString => [EmptyString]
  | String c rest =>
      if decide (c = sep) then EmptyString :: split sep rest
      else match split sep rest with
           | [] => [String c EmptyString]
           | hd :: tl => String c hd :: tl
           end
  end.

(** [s.startsWith(p)] *)
Fixpoint startsWith (p s : string) : bool :=
  match p, s with
  | EmptyString, _ => true
  | String a p', String b s' => if decide (a = b) then startsWith p' s' else false
  | String _ _, EmptyString => false
  end.

(** [s.slice(n)] for [0 <= n] *)
Fixpoint slice (n : nat) (s : string) : string :=
  match n, s with
  | O, _ => s
  | S n', String _ s' => slice n' s'
  | S _, EmptyString => EmptyString
  end.

(** [parts.join(sep)] on an array of strings *)
Fixpoint join (sep : string) (parts : list string) : string :=
  match parts with
  | [] => EmptyString
  | [p] => p
  | p :: rest => p +:+ sep +:+ join sep rest
  end.

(** Parsed JSON.  A number is kept as its [Number::toString] rendering, the
    only view of a number taken by the code under study. *)
Inductive json : Type :=
  | JNull
  | JBool (b : bool)
  | JNum (repr : string)
  | JStr (s : string)
  | JArr (items : list json)
  | JObj (fields : list (string * json)).

(** A value read from a property: [None] is [undefined]. *)
Definition value := option json.

(** What a [throw] carries: an object literal built by the SDK, or an
    [Error]/[DOMException] instance raised by the platform. *)
Record AACSearchError := mkError {
  message : value;
  code : value;
  statusCode : option Z;
  details : value
}.

Inductive thrown : Type :=
  | ErrorObject (e : AACSearchError)
  | Exception (name msg : string).

(** [error.name] of a caught value: the SDK's error objects have none. *)
Definition name_of (t : thrown) : option string :=
  match t with
  | ErrorObject _ => None
  | Exception n _ => Some n
  end.

Inductive completion (A : Type) : Type :=
  | Returned (a : A)
  | Threw (t : thrown).
Arguments Returned {A} a.
Arguments Threw {A} t.

(** Own properties of an ordinary object in [Object.entries] order. *)
Fixpoint lookup_field {V} (k : string) (o : list (string * V)) : option V :=
  match o with
  | [] => None
  | (k', v) :: rest => if decide (k' = k) then Some v else lookup_field k rest
  end.

(** [data.k] on a parsed JSON value: a [TypeError] on [null], [undefined]
    on primitives, arrays and absent keys, the value otherwise. *)
Definition get (data : json) (k : string) : completion value :=
  match data with
  | JNull => Threw (Exception "TypeError" "Cannot read properties of null")
  | JObj fields => Returned (lookup_field k fields)
  | _ => Returned None
  end.

(** [ToBoolean] *)
Definition truthy (v : value) : bool :=
  match v with
  | None => false
  | Some JNull => false
  | Some (JBool b) => b
  | Some (JNum r) => negb (bool_decide (r = "0") || bool_decide (r = "NaN"))
  | Some (JStr s) => negb (bool_decide (s = ""))
  | Some (JArr _) => true
  | Some (JObj _) => true
  end.

(** [a || b] *)
Definition or_else (a b : value) : value := if truthy a then a else b.

(** [ToString], as used by [fullAnswer += data.content].  An array is joined
    with commas, [null] and [undefined] items giving the empty string. *)
Fixpoint toString (j : json) : string :=
  match j with
  | JNull => "null"
  | JBool true => "true"
  | JBool false => "false"
  | JNum r => r
  | JStr s => s
  | JArr items =>
      join "," (map (fun i => match i with JNull => "" | _ => toString i end) items)
  | JObj _ => "[object Object]"
  end.

Definition toString_value (v : value) : string :=
  match v with
  | None => "undefined"
  | Some j => toString j
  end.

(** [x === "lit"] for a property value *)
Definition is_string (v : value) (lit : string) : bool :=
  match v with
  | Some (JStr s) => bool_decide (s = lit)
  | _ => false
  end.

(** *** Ordinary objects used as maps

    The own string-keyed properties in the order [Object.entries] lists
    them: array-index keys first, ascending, then the other keys in the
    order they were created. *)

Definition digit_of (c : ascii) : option N :=
  let n := N_of_ascii c in
  if ((48 <=? n) && (n <=? 57))%N then Some (n - 48)%N else None.

Fixpoint decimal (s : string) (acc : N) : option N :=
  match s with
  | EmptyString => Some acc
  | String c rest =>
      match digit_of c with
      | Some d => decimal rest (10 * acc + d)%N
      | None => None
      end
  end.

(** A canonical numeric string below [2^32 - 1]. *)
Definition array_index (k : string) : option N :=
  match k with
  | EmptyString => None
  | String "0" EmptyString => Some 0%N
  | String "0" _ => None
  | _ => match decimal k 0 with
         | Some n => if (n <? 4294967295)%N then Some n else None
         | None => None
         end
  end.

Definition has_field {V} (k : string) (o : list (string * V)) : bool :=
  bool_decide (is_Some (lookup_field k o)).

Fixpoint replace_field {V} (k : string) (v : V) (o : list (string * V)) : list (string * V) :=
  match o with
  | [] => []
  | (k', v') :: rest =>
      if decide (k' = k) then (k, v) :: rest else (k', v') :: replace_field k v rest
  end.

Fixpoint insert_index {V} (n : N) (k : string) (v : V) (o : list (string * V))
  : list (string * V) :=
  match o with
  | [] => [(k, v)]
  | (k', v') :: rest =>
      match array_index k' with
      | Some m => if (m <? n)%N then (k', v') :: insert_index n k v rest
                  else (k, v) :: o
      | None => (k, v) :: o
      end
  end.

(** [o[k] = v] on a copy of [o], that is [{ ...o, [k]: v }]: an existing
    key keeps its place. *)
Definition set_field {V} (k : string) (v : V) (o : list (string * V)) : list (string * V) :=
  if has_field k o then replace_field k v o
  else match array_index k with
       | Some n => insert_index n k v o
       | None => o ++ [(k, v)]
       end.

(** [const { [k]: _, ...rest } = o] *)
Definition without_field {V} (k : string) (o : list (string * V)) : list (string * V) :=
  filter (fun kv => kv.1 ≠ k) o.

End JS.

(** ** A fragment of [JSON.parse]

    [JSON.parse] is a parameter of the models below.  To run them on
    concrete wire data the parameter is instantiated with this reader of a
    fragment of JSON: objects, arrays, strings with the two-character
    escapes, the three literals and integers of at most fifteen digits.
    On that fragment it returns what [JSON.parse] returns; on any other
    text, well-formed or not, it returns [None]. *)

Module JSONText.
Import JS.

(** Wire data is written with apostrophes for the double quotes. *)
Fixpoint dq (s : string) : string :=
  match s with
  | EmptyString => EmptyString
  | String c rest => String (if decide (c = "'"%char) then "034"%char else c) (dq rest)
  end.

(** The bytes of a body written that way. *)
Definition wire (s : string) : list Byte.byte := String.list_byte_of_string (dq s).

Definition is_ws (c : ascii) : bool :=
  bool_decide (c = " "%char) || bool_decide (c = "009"%char)
  || bool_decide (c = "010"%char) || bool_decide (c = "013"%char).

Fixpoint skip_ws (s : string) : string :=
  match s with
  | String c rest => if is_ws c then skip_ws rest else s
  | EmptyString => s
  end.

Definition escape (c : ascii) : option ascii :=
  if decide (c = "034"%char) then Some "034"%char
  else if decide (c = "\"%char) then Some "\"%char
  else if decide (c = "/"%char) then Some "/"%char
  else if decide (c = "n"%char) then Some "010"%char
  else if decide (c = "t"%char) then Some "009"%char
  else if decide (c = "r"%char) then Some "013"%char
  else if decide (c = "b"%char) then Some "008"%char
  else if decide (c = "f"%char) then Some "012"%char
  else None.

(** The characters of a string literal after its opening quote, and the
    text after its closing quote. *)
Fixpoint string_body (s : string) : option (string * string) :=
  match s with
  | EmptyString => None
  | String c rest =>
      if decide (c = "034"%char) then Some (EmptyString, rest)
      else if decide (c = "\"%char) then
        match rest with
        | String e rest' =>
            match escape e, string_body rest' with
            | Some x, Some (body, after) => Some (String x body, after)
            | _, _ => None
            end
        | EmptyString => None
        end
      else if (N_of_ascii c <? 32)%N then None
      else match string_body rest with
           | Some (body, after) => Some (String c body, after)
           | None => None
           end
  end.

Fixpoint digits (s : string) : string * string :=
  match s with
  | String c rest =>
      match digit_of c with
      | Some _ => let '(ds, after) := digits rest in (String c ds, after)
      | None => (EmptyString, s)
      end
  | EmptyString => (EmptyString, s)
  end.

Definition starts_fraction (s : string) : bool :=
  match s with
  | String c _ => bool_decide (c = "."%char) || bool_decide (c = "e"%char)
                  || bool_decide (c = "E"%char)
  | EmptyString => false
  end.

Definition number (s : string) : option (json * string) :=
  let '(neg, s) := match s with
                   | String "-" rest => (true, rest)
                   | _ => (false, s)
                   end in
  let '(ds, after) := digits s in
  match ds with
  | EmptyString => None
  | String "0" (String _ _) => None
  | _ =>
      if starts_fraction after || (15 <? String.length ds)%nat then None
      else if neg && negb (bool_decide (ds = "0")) then Some (JNum ("-" +:+ ds), after)
      else Some (JNum ds, after)
  end.

Definition literal (word : string) (j : json) (s : string) : option (json * string) :=
  if startsWith word s then Some (j, slice (String.length word) s) else None.

Fixpoint element (fuel : nat) (s : string) : option (json * string) :=
  match fuel with
  | O => None
  | S fuel =>
      match skip_ws s with
      | String "{" rest =>
          match skip_ws rest with
          | String "}" after => Some (JObj [], after)
          | inner => members fuel inner []
          end
      | String "[" rest =>
          match skip_ws rest with
          | String "]" after => Some (JArr [], after)
          | inner => elements fuel inner []
          end
      | String "034" rest =>
          match string_body rest with
          | Some (body, after) => Some (JStr body, after)
          | None => None
          end
      | String "t" _ as w => literal "true" (JBool true) w
      | String "f" _ as w => literal "false" (JBool false) w
      | String "n" _ as w => literal "null" JNull w
      | w => number w
      end
  end
with members (fuel : nat) (s : string) (acc : list (string * json))
  : option (json * string) :=
  match fuel with
  | O => None
  | S fuel =>
      match skip_ws s with
      | String "034" rest =>
          match string_body rest with
          | Some (k, after_key) =>
              match skip_ws after_key with
              | String ":" after_colon =>
                  match element fuel after_colon with
                  | Some (v, after_value) =>
                      match skip_ws after_value with
                      | String "," more => members fuel more (set_field k v acc)
                      | String "}" after => Some (JObj (set_field k v acc), after)
                      | _ => None
                      end
                  | None => None
                  end
              | _ => None
              end
          | None => None
          end
      | _ => None
      end
  end
with elements (fuel : nat) (s : string) (acc : list json) : option (json * string) :=
  match fuel with
  | O => None
  | S fuel =>
      match element fuel s with
      | Some (v, after_value) =>
          match skip_ws after_value with
          | String "," more => elements fuel more (acc ++ [v])
          | String "]" after => Some (JArr (acc ++ [v]), after)
          | _ => None
          end
      | None => None
      end
  end.

Definition parse (s : string) : option json :=
  match element (S (String.length s)) s with
  | Some (j, after) =>
      match skip_ws after with
      | EmptyString => Some j
      | String _ _ => None
      end
  | None => None
  end.

End JSONText.

(** ** Request executor: [AACSearchClient.request] *)

Module Executor.
Import JS.

Record AACSearchConfig := mkConfig {
  config_apiKey : string;
  config_endpoint : option string;
  config_tenant : option string;
  config_timeout : option Z
}.

(** The fields the constructor stores. *)
Record client := mkClient {
  apiKey : string;
  endpoint : string;
  tenant : option string;
  timeout : Z
}.

(** [config.endpoint || 'https://api.aacsearch.com'] and
    [config.timeout || 30000]: the empty string and [0] are falsy. *)
Definition constructor (config : AACSearchConfig) : client :=
  {| apiKey := config_apiKey config;
     endpoint := match config_endpoint config with
                 | Some e => if decide (e = "") then "https://api.aacsearch.com" else e
                 | None => "https://api.aacsearch.com"
                 end;
     tenant := config_tenant config;
     timeout := match config_timeout config with
                | Some t => if decide (t = 0) then 30000 else t
                | None => 30000
                end |}.

(** The part of [RequestInit] that callers in the SDK fill in. *)
Record RequestInit := mkInit {
  init_method : option string;
  init_headers : list (string * string);
  init_body : option string
}.

(** [{ ...base, ...extra }] *)
Definition spread_headers (base extra : list (string * string)) : list (string * string) :=
  fold_left (fun acc kv => set_field kv.1 kv.2 acc) extra base.

Record FetchCall := mkFetch {
  fetch_url : string;
  fetch_method : option string;
  fetch_headers : list (string * string);
  fetch_body : option string;
  fetch_signal : option nat
}.

Record Response := mkResponse {
  status : Z;
  statusText : string;
  body_text : string
}.

(** [response.ok] *)
Definition ok (r : Response) : bool :=
  bool_decide (200 <= status r) && bool_decide (status r <= 299).

(** The platform as seen by one client: pending timeouts (identifier and
    delay), the abort controllers created so far with those already
    aborted, and the [fetch] calls issued. *)
Record platform := mkPlatform {
  next_timer : nat;
  timers : list (nat * Z);
  next_controller : nat;
  aborted : list nat;
  fetches : list FetchCall
}.

Definition new_AbortController (pf : platform) : nat * platform :=
  (next_controller pf,
   mkPlatform (next_timer pf) (timers pf) (S (next_controller pf)) (aborted pf) (fetches pf)).

Definition setTimeout (delay : Z) (pf : platform) : nat * platform :=
  (next_timer pf,
   mkPlatform (S (next_timer pf)) (timers pf ++ [(next_timer pf, delay)])
              (next_controller pf) (aborted pf) (fetches pf)).

(** Clearing an identifier that is not pending does nothing. *)
Definition clearTimeout (id : nat) (pf : platform) : platform :=
  mkPlatform (next_timer pf) (filter (fun t => t.1 ≠ id) (timers pf))
             (next_controller pf) (aborted pf) (fetches pf).

(** A timeout that fires leaves the pending list before its callback runs. *)
Definition fire (id : nat) (pf : platform) : platform := clearTimeout id pf.

Definition abort (controller : nat) (pf : platform) : platform :=
  mkPlatform (next_timer pf) (timers pf) (next_controller pf)
             (controller :: aborted pf) (fetches pf).

Definition fetch (call : FetchCall) (pf : platform) : platform :=
  mkPlatform (next_timer pf) (timers pf) (next_controller pf) (aborted pf)
             (fetches pf ++ [call]).

(** How the [fetch] promise of one call settles.  [fetch] rejects with a
    [TypeError] on a network failure and with an [AbortError] only when its
    signal is aborted; the signal is the call's own controller, which
    nothing but the timeout callback aborts. *)
Inductive transport : Type :=
  | HeadersArrive (r : Response)
  | NetworkFailure (msg : string)
  | DeadlinePasses.

Definition timeout_error : AACSearchError :=
  mkError (Some (JStr "Request timeout")) (Some (JStr "TIMEOUT")) None None.

Record SearchParams := mkSearchParams {
  q : string;
  params_collection : string;
  query_by : string;
  filter_by : option string;
  facet_by : option string;
  sort_by : option string;
  params_page : Z;
  per_page : Z
}.

(** The pairs [search] appends to its [URLSearchParams]: the entries of the
    parameter object in the order of its literal, those that are
    [undefined] left out, the page numbers through [String]. *)
Definition search_entries (params : SearchParams) : list (string * string) :=
  [("q", q params); ("collection", params_collection params);
   ("query_by", query_by params)]
  ++ from_option (fun v => [("filter_by", v)]) [] (filter_by params)
  ++ from_option (fun v => [("facet_by", v)]) [] (facet_by params)
  ++ from_option (fun v => [("sort_by", v)]) [] (sort_by params)
  ++ [("page", pretty (params_page params)); ("per_page", pretty (per_page params))].

Section Request.

(** [JSON.parse] on a response body; [None] when it throws a [SyntaxError]. *)
Variable JSON_parse : string -> option json.

(** [queryParams.toString()]: the percent-encoded query string. *)
Variable URLSearchParams_toString : list (string * string) -> string.

(** [await response.json()] *)
Definition response_json (r : Response) : completion json :=
  match JSON_parse (body_text r) with
  | Some j => Returned j
  | None => Threw (Exception "SyntaxError" "Unexpected token in JSON")
  end.

(** The error thrown for a response outside 200-299: the default message and
    the status, overwritten from the body when that parses and is not
    [null] (the three assignments run together or not at all, since only
    the first property read can throw). *)
Definition status_error (r : Response) : AACSearchError :=
  let error := mkError (Some (JStr ("API request failed: " +:+ statusText r)))
                       None (Some (status r)) None in
  match response_json r with
  | Threw _ => error
  | Returned errorData =>
      match get errorData "message", get errorData "code", get errorData "details" with
      | Returned m, Returned c, Returned d =>
          mkError (or_else m (message error)) c (statusCode error) d
      | _, _, _ => error
      end
  end.

(** The [catch (error)] block of [request]. *)
Definition request_catch (timeoutId : nat) (error : thrown) (pf : platform)
  : completion json * platform :=
  let pf := clearTimeout timeoutId pf in
  if decide (name_of error = Some "AbortError")
  then (Threw (ErrorObject timeout_error), pf)
  else (Threw error, pf).

(** [request] up to its first [await]: headers, controller, timer, [fetch]. *)
Definition request_start (cl : client) (path : string) (options : RequestInit)
  (pf : platform) : nat * nat * platform :=
  let url := endpoint cl +:+ path in
  let headers :=
    spread_headers [("Content-Type", "application/json"); ("X-API-Key", apiKey cl)]
                   (init_headers options) in
  let headers :=
    match tenant cl with
    | Some t => if decide (t = "") then headers else set_field "X-Tenant-ID" t headers
    | None => headers
    end in
  let '(controller, pf) := new_AbortController pf in
  let '(timeoutId, pf) := setTimeout (timeout cl) pf in
  let pf := fetch (mkFetch url (init_method options) headers (init_body options)
                           (Some controller)) pf in
  (controller, timeoutId, pf).

(** [request] from the moment [fetch] settles. *)
Definition request_settle (controller timeoutId : nat) (env : transport)
  (pf : platform) : completion json * platform :=
  match env with
  | HeadersArrive response =>
      let pf := clearTimeout timeoutId pf in
      if negb (ok response)
      then request_catch timeoutId (ErrorObject (status_error response)) pf
      else match response_json response with
           | Returned j => (Returned j, pf)
           | Threw t => request_catch timeoutId t pf
           end
  | NetworkFailure msg =>
      request_catch timeoutId (Exception "TypeError" msg) pf
  | DeadlinePasses =>
      let pf := abort controller (fire timeoutId pf) in
      request_catch timeoutId (Exception "AbortError" "The operation was aborted.") pf
  end.

Definition request (cl : client) (path : string) (options : RequestInit)
  (env : transport) (pf : platform) : completion json * platform :=
  let '(controller, timeoutId, pf) := request_start cl path options pf in
  request_settle controller timeoutId env pf.

(** [search(params)] up to the [await] inside [request]. *)
Definition search_start (cl : client) (params : SearchParams) (pf : platform)
  : nat * nat * platform :=
  request_start cl
    ("/api/v1/search?" +:+ URLSearchParams_toString (search_entries params))
    (mkInit (Some "POST") [] None) pf.

End Request.

Definition empty_platform : platform := mkPlatform 0 [] 0 [] [].

End Executor.

(** ** Streaming parser: [conversationalSearch] and
       [streamConversationalSearch] *)

Module Stream.
Import JS Executor.

(** *** [TextDecoder] for UTF-8, used with [{ stream: true }]

    The decoder of the Encoding standard: a code point under construction,
    the continuation bytes seen and needed, and the bounds allowed for the
    next byte.  Bytes and code points are numbers. *)
Record decoder := mkDecoder {
  code_point : N;
  bytes_seen : N;
  bytes_needed : N;
  lower_boundary : N;
  upper_boundary : N;
  bom_seen : bool
}.

Definition new_TextDecoder : decoder := mkDecoder 0 0 0 0x80 0xBF false.

Definition reset (d : decoder) : decoder := mkDecoder 0 0 0 0x80 0xBF (bom_seen d).

Definition between (lo hi b : N) : bool := ((lo <=? b) && (b <=? hi))%N.

(** A byte read while no sequence is open. *)
Definition lead_byte (b : N) (d : decoder) : list N * decoder :=
  if between 0x00 0x7F b then ([b], reset d)
  else if between 0xC2 0xDF b then
    ([], mkDecoder (N.land b 0x1F) 0 1 0x80 0xBF (bom_seen d))
  else if between 0xE0 0xEF b then
    ([], mkDecoder (N.land b 0xF) 0 2
           (if (b =? 0xE0)%N then 0xA0 else 0x80)
           (if (b =? 0xED)%N then 0x9F else 0xBF) (bom_seen d))
  else if between 0xF0 0xF4 b then
    ([], mkDecoder (N.land b 0x7) 0 3
           (if (b =? 0xF0)%N then 0x90 else 0x80)
           (if (b =? 0xF4)%N then 0x8F else 0xBF) (bom_seen d))
  else ([0xFFFD%N], reset d).

(** One byte through the decoder: the code points it completes.  A byte
    outside the bounds ends the open sequence with U+FFFD and is read again
    as a lead byte. *)
Definition decode_byte (b : N) (d : decoder) : list N * decoder :=
  if (bytes_needed d =? 0)%N then lead_byte b d
  else if negb (between (lower_boundary d) (upper_boundary d) b) then
    let '(out, d') := lead_byte b (reset d) in (0xFFFD%N :: out, d')
  else
    let cp := N.lor (N.shiftl (code_point d) 6) (N.land b 0x3F) in
    if (bytes_seen d + 1 =? bytes_needed d)%N then ([cp], reset d)
    else ([], mkDecoder cp (bytes_seen d + 1) (bytes_needed d) 0x80 0xBF (bom_seen d)).

(** The UTF-8 bytes that represent a code point in decoded text. *)
Definition utf8 (cp : N) : string :=
  let ch (n : N) := String (ascii_of_N n) EmptyString in
  let cont (n : N) := ch (N.lor 0x80 (N.land n 0x3F)) in
  if (cp <? 0x80)%N then ch cp
  else if (cp <? 0x800)%N then
    ch (N.lor 0xC0 (N.shiftr cp 6)) +:+ cont cp
  else if (cp <? 0x10000)%N then
    ch (N.lor 0xE0 (N.shiftr cp 12)) +:+ cont (N.shiftr cp 6) +:+ cont cp
  else
    ch (N.lor 0xF0 (N.shiftr cp 18)) +:+ cont (N.shiftr cp 12)
       +:+ cont (N.shiftr cp 6) +:+ cont cp.

(** Serialising the decoded code points: the first code point of the stream
    is dropped when it is a byte-order mark. *)
Fixpoint serialize (cps : list N) (d : decoder) : string * decoder :=
  match cps with
  | [] => (EmptyString, d)
  | cp :: rest =>
      let d' := mkDecoder (code_point d) (bytes_seen d) (bytes_needed d)
                          (lower_boundary d) (upper_boundary d) true in
      let '(s, d'') := serialize rest d' in
      if negb (bom_seen d) && (cp =? 0xFEFF)%N then (s, d'')
      else (utf8 cp +:+ s, d'')
  end.

(** [decoder.decode(value, { stream: true })]: an unfinished sequence at
    the end of [value] stays in the decoder. *)
Fixpoint decode (chunk : list Byte.byte) (d : decoder) : string * decoder :=
  match chunk with
  | [] => (EmptyString, d)
  | b :: rest =>
      let '(cps, d) := decode_byte (Byte.to_N b) d in
      let '(s1, d) := serialize cps d in
      let '(s2, d) := decode rest d in
      (s1 +:+ s2, d)
  end.

(** *** The read loop *)

Record ConversationalSearchParams := mkParams {
  conversation_id : option string;
  message : string;
  collection : string;
  context : option (list string);
  streaming : option bool
}.

(** Which of the optional callbacks the caller supplied. *)
Record StreamingOptions := mkOptions {
  onChunk : bool;
  onComplete : bool;
  onError : bool
}.

(** Calls made on the supplied callbacks, oldest first. *)
Inductive sink_call : Type :=
  | Chunk (content : value)
  | Complete
  | Error (t : thrown).

Record loop_state := mkLoop {
  td : decoder;
  fullAnswer : string;
  result : value;
  calls : list sink_call
}.

(** What a caller can see of the loop: the answer so far, the captured
    metadata and the callbacks made. *)
Definition observable (st : loop_state) : string * value * list sink_call :=
  (fullAnswer st, result st, calls st).

(** The text that a sequence of token contents adds to the answer. *)
Definition concat_text (contents : list value) : string :=
  foldr (fun content text => toString_value content +:+ text) "" contents.

(** What the loop has done between two of its states: it has appended the
    text of some token contents to the answer and has called [onChunk], if
    supplied, with each of them in turn. *)
Definition tokens_between (options : StreamingOptions) (st st' : loop_state)
  (contents : list value) : Prop :=
  fullAnswer st' = fullAnswer st +:+ concat_text contents
  /\ calls st' = calls st ++ (if onChunk options then Chunk <$> contents else []).

(** The loop state with the decoder replaced. *)
Definition with_td (d : decoder) (st : loop_state) : loop_state :=
  mkLoop d (fullAnswer st) (result st) (calls st).

Definition call_if (supplied : bool) (c : sink_call) (st : loop_state) : loop_state :=
  if supplied then mkLoop (td st) (fullAnswer st) (result st) (calls st ++ [c]) else st.

(** How the body stream ends: [done], or a rejected [read]. *)
Inductive stream_end : Type :=
  | Done
  | ReadFails (msg : string).

(** How the streaming [fetch] goes: it rejects, it resolves without a body,
    or it resolves with a body delivered as a sequence of reads. *)
Inductive stream_transport : Type :=
  | StreamFails (msg : string)
  | StreamNoBody
  | StreamBody (reads : list (list Byte.byte)) (fin : stream_end).

Section Parser.

Variable JSON_parse : string -> option json.
Variable JSON_stringify : ConversationalSearchParams -> string.

(** The body of [for (const line of lines)]. *)
Definition process_line (options : StreamingOptions) (line : string)
  (st : loop_state) : completion loop_state :=
  if startsWith "data: " line then
    match JSON_parse (slice 6 line) with
    | None => Threw (Exception "SyntaxError" "Unexpected token in JSON")
    | Some data =>
        match get data "type" with
        | Threw t => Threw t
        | Returned ty =>
            if is_string ty "token" then
              match get data "content" with
              | Threw t => Threw t
              | Returned content =>
                  Returned (call_if (onChunk options) (Chunk content)
                              (mkLoop (td st) (fullAnswer st +:+ toString_value content)
                                      (result st) (calls st)))
              end
            else if is_string ty "result" then
              match get data "data" with
              | Threw t => Threw t
              | Returned payload =>
                  Returned (mkLoop (td st) (fullAnswer st) payload (calls st))
              end
            else Returned st
        end
    end
  else Returned st.

(** The [for] loop over the lines of one chunk.  A throw keeps what was
    done before it: the state at the throw is returned beside the thrown
    value. *)
Fixpoint process_lines (options : StreamingOptions) (lines : list string)
  (st : loop_state) : loop_state * option thrown :=
  match lines with
  | [] => (st, None)
  | line :: rest =>
      match process_line options line st with
      | Returned st' => process_lines options rest st'
      | Threw t => (st, Some t)
      end
  end.

(** One iteration of [while (true)] for a read that delivered [value]. *)
Definition process_chunk (options : StreamingOptions) (value : list Byte.byte)
  (st : loop_state) : loop_state * option thrown :=
  let '(chunk, d) := decode value (td st) in
  let lines := split "010" chunk in
  process_lines options lines (mkLoop d (fullAnswer st) (result st) (calls st)).

(** The loop over the reads, up to [done] or a rejected read. *)
Fixpoint read_loop (options : StreamingOptions) (reads : list (list Byte.byte))
  (fin : stream_end) (st : loop_state) : loop_state * option thrown :=
  match reads with
  | [] =>
      match fin with
      | Done => (st, None)
      | ReadFails msg => (st, Some (Exception "TypeError" msg))
      end
  | value :: rest =>
      match process_chunk options value st with
      | (st', None) => read_loop options rest fin st'
      | (st', Some t) => (st', Some t)
      end
  end.

(** [result.k || fallback] on the captured [result]: a [TypeError] when
    [result] is [undefined] or [null]. *)
Definition result_field (res : value) (k : string) (fallback : json) : completion json :=
  match res with
  | None => Threw (Exception "TypeError" "Cannot read properties of undefined")
  | Some r =>
      match get r k with
      | Threw t => Threw t
      | Returned v => Returned (if truthy v then default fallback v else fallback)
      end
  end.

(** The object returned after [done]. *)
Definition final_result (st : loop_state) : completion json :=
  match result_field (result st) "conversation_id" (JStr "") with
  | Threw t => Threw t
  | Returned cid =>
      match result_field (result st) "sources"
              (JObj [("hits", JArr []); ("found", JNum "0")]) with
      | Threw t => Threw t
      | Returned src =>
          match result_field (result st) "suggested_questions" (JArr []) with
          | Threw t => Threw t
          | Returned sq =>
              Returned (JObj [("conversation_id", cid); ("answer", JStr (fullAnswer st));
                              ("sources", src); ("suggested_questions", sq)])
          end
      end
  end.

Definition stream_url (cl : client) : string :=
  endpoint cl +:+ "/api/v1/search/conversational/stream".

(** [streamConversationalSearch]: the value it settles with, the calls made
    on the callbacks, and the platform with the [fetch] recorded. *)
Definition streamConversationalSearch (cl : client) (params : ConversationalSearchParams)
  (options : StreamingOptions) (env : stream_transport) (pf : platform)
  : completion json * list sink_call * platform :=
  let pf := fetch (mkFetch (stream_url cl) (Some "POST")
                     [("Content-Type", "application/json"); ("X-API-Key", apiKey cl)]
                     (Some (JSON_stringify params)) None) pf in
  match env with
  | StreamFails msg => (Threw (Exception "TypeError" msg), [], pf)
  | StreamNoBody => (Threw (Exception "Error" "Streaming not supported"), [], pf)
  | StreamBody reads fin =>
      let st0 := mkLoop new_TextDecoder "" (Some (JObj [])) [] in
      match read_loop options reads fin st0 with
      | (st, Some t) => (Threw t, calls (call_if (onError options) (Error t) st), pf)
      | (st, None) =>
          let st := call_if (onComplete options) Complete st in
          match final_result st with
          | Returned r => (Returned r, calls st, pf)
          | Threw t => (Threw t, calls (call_if (onError options) (Error t) st), pf)
          end
      end
  end.

(** What the network does for either kind of call. *)
Record network := mkNetwork {
  http : transport;
  stream : stream_transport
}.

(** [conversationalSearch(params, streamingOptions?)] *)
Definition conversationalSearch (cl : client) (params : ConversationalSearchParams)
  (streamingOptions : option StreamingOptions) (env : network) (pf : platform)
  : completion json * list sink_call * platform :=
  match streaming params, streamingOptions with
  | Some true, Some options =>
      streamConversationalSearch cl params options (stream env) pf
  | _, _ =>
      let '(response, pf) :=
        request JSON_parse cl "/api/v1/search/conversational"
                (mkInit (Some "POST") [] (Some (JSON_stringify params))) (http env) pf in
      (response, [], pf)
  end.

End Parser.

End Stream.

(** ** WebSocket session: [connectWebSocket], [disconnectWebSocket],
       [subscribeToCollection] and the [useRealtime] hook

    One state holds the two private fields of the client, the sockets the
    client has constructed (the four handlers installed by
    [connectWebSocket] stay on a socket after [this.ws] moves on), the
    pending reconnect timeouts, and the hook's [connected] flag, [updates]
    and [subscribedCollections].  A handler runs to completion and the
    component is rendered again before the next event. *)

Module Session.
Import JS.

Inductive readyState : Type := CONNECTING | OPEN | CLOSING | CLOSED.

Record RealtimeUpdate := mkUpdate {
  update_type : value;
  update_collection : value;
  update_document : value
}.

Record state := mkState {
  ws : option nat;
  wsReconnectAttempts : Z;
  sockets : list readyState;
  sent : list (nat * json);
  next_timer : nat;
  timers : list (nat * Z);
  scheduled : list Z;
  connected : bool;
  updates : list RealtimeUpdate;
  subscribedCollections : gset string;
  reported : list string
}.

Definition maxReconnectAttempts : Z := 5.

Definition initial : state :=
  mkState None 0 [] [] 0 [] [] false [] ∅ [].

(** Field updates. *)
Definition set_ws (v : option nat) (st : state) : state :=
  mkState v (wsReconnectAttempts st) (sockets st) (sent st) (next_timer st)
          (timers st) (scheduled st) (connected st) (updates st)
          (subscribedCollections st) (reported st).
Definition set_attempts (n : Z) (st : state) : state :=
  mkState (ws st) n (sockets st) (sent st) (next_timer st)
          (timers st) (scheduled st) (connected st) (updates st)
          (subscribedCollections st) (reported st).
Definition set_sockets (l : list readyState) (st : state) : state :=
  mkState (ws st) (wsReconnectAttempts st) l (sent st) (next_timer st)
          (timers st) (scheduled st) (connected st) (updates st)
          (subscribedCollections st) (reported st).
Definition setConnected (b : bool) (st : state) : state :=
  mkState (ws st) (wsReconnectAttempts st) (sockets st) (sent st) (next_timer st)
          (timers st) (scheduled st) b (updates st)
          (subscribedCollections st) (reported st).
Definition set_subscribed (c : gset string) (st : state) : state :=
  mkState (ws st) (wsReconnectAttempts st) (sockets st) (sent st) (next_timer st)
          (timers st) (scheduled st) (connected st) (updates st) c (reported st).
Definition push_update (u : RealtimeUpdate) (st : state) : state :=
  mkState (ws st) (wsReconnectAttempts st) (sockets st) (sent st) (next_timer st)
          (timers st) (scheduled st) (connected st) (updates st ++ [u])
          (subscribedCollections st) (reported st).
(** [console.error], [console.warn], and exceptions that leave a handler. *)
Definition report (what : string) (st : state) : state :=
  mkState (ws st) (wsReconnectAttempts st) (sockets st) (sent st) (next_timer st)
          (timers st) (scheduled st) (connected st) (updates st)
          (subscribedCollections st) (reported st ++ [what]).

Definition setTimeout (delay : Z) (st : state) : state :=
  mkState (ws st) (wsReconnectAttempts st) (sockets st) (sent st) (S (next_timer st))
          (timers st ++ [(next_timer st, delay)]) (scheduled st ++ [delay])
          (connected st) (updates st) (subscribedCollections st) (reported st).

Definition remove_timer (id : nat) (st : state) : state :=
  mkState (ws st) (wsReconnectAttempts st) (sockets st) (sent st) (next_timer st)
          (filter (fun t => t.1 ≠ id) (timers st)) (scheduled st)
          (connected st) (updates st) (subscribedCollections st) (reported st).

(** [socket.send(frame)]: an [InvalidStateError] while the socket is still
    connecting, a frame on the wire when it is open, nothing otherwise. *)
Definition send (i : nat) (frame : json) (st : state) : option state :=
  match sockets st !! i with
  | Some CONNECTING => None
  | Some OPEN =>
      Some (mkState (ws st) (wsReconnectAttempts st) (sockets st) (sent st ++ [(i, frame)])
                    (next_timer st) (timers st) (scheduled st) (connected st)
                    (updates st) (subscribedCollections st) (reported st))
  | _ => Some st
  end.

(** [connectWebSocket(onMessage, onError)]: a new socket becomes [this.ws]. *)
Definition connectWebSocket (st : state) : state :=
  set_ws (Some (length (sockets st))) (set_sockets (sockets st ++ [CONNECTING]) st).

(** The delay passed to [setTimeout] by the close handler. *)
Definition reconnect_delay (attempts : Z) : Z := Z.min (1000 * 2 ^ attempts) 30000.

Section Handlers.

Variable JSON_parse : string -> option json.
Variable apiKey : string.

(** [ws.onopen] *)
Definition onopen (st : state) : state :=
  let st := set_attempts 0 st in
  match ws st with
  | Some j =>
      match send j (JObj [("type", JStr "auth"); ("api_key", JStr apiKey)]) st with
      | Some st' => st'
      | None => report "InvalidStateError" st
      end
  | None => st
  end.

(** The [onMessage] callback that [useRealtime.connect] passes. *)
Definition hook_onMessage (data : json) (st : state) : completion state :=
  match get data "type" with
  | Threw t => Threw t
  | Returned ty =>
      if is_string ty "connected" then Returned (setConnected true st)
      else if is_string ty "update" then
        match get data "action", get data "collection", get data "document" with
        | Returned a, Returned c, Returned d => Returned (push_update (mkUpdate a c d) st)
        | Threw t, _, _ => Threw t
        | _, Threw t, _ => Threw t
        | _, _, Threw t => Threw t
        end
      else Returned st
  end.

(** [ws.onmessage]: a frame that does not parse, or a callback that throws,
    is logged and dropped. *)
Definition onmessage (data : string) (st : state) : state :=
  match JSON_parse data with
  | None => report "Failed to parse WebSocket message" st
  | Some j =>
      match hook_onMessage j st with
      | Returned st' => st'
      | Threw _ => report "Failed to parse WebSocket message" st
      end
  end.

(** [ws.onerror], with the [onError] callback of [useRealtime.connect]. *)
Definition onerror (st : state) : state :=
  setConnected false (report "WebSocket error" st).

(** [ws.onclose] *)
Definition onclose (st : state) : state :=
  if bool_decide (wsReconnectAttempts st < maxReconnectAttempts) then
    let st := set_attempts (wsReconnectAttempts st + 1) st in
    setTimeout (reconnect_delay (wsReconnectAttempts st)) st
  else st.

(** [socket.close()] *)
Definition close (i : nat) (st : state) : state :=
  match sockets st !! i with
  | Some CONNECTING | Some OPEN => set_sockets (<[i := CLOSING]> (sockets st)) st
  | _ => st
  end.

(** [disconnectWebSocket()] *)
Definition disconnectWebSocket (st : state) : state :=
  match ws st with
  | Some i => set_ws None (close i st)
  | None => st
  end.

(** [useRealtime.disconnect] *)
Definition disconnect (st : state) : state :=
  set_subscribed ∅ (setConnected false (disconnectWebSocket st)).

(** [subscribeToCollection(collection, callback)]: the callback is wrapped
    in a handler that is stored nowhere. *)
Definition subscribeToCollection (collection : string) (st : state) : option state :=
  match ws st with
  | None => None
  | Some i => send i (JObj [("type", JStr "subscribe"); ("collection", JStr collection)]) st
  end.

(** [useRealtime.subscribe] *)
Definition subscribe (collection : string) (st : state) : state :=
  if negb (connected st) then report "WebSocket not connected. Call connect() first." st
  else if bool_decide (collection ∈ subscribedCollections st) then st
  else match subscribeToCollection collection st with
       | Some st' => set_subscribed ({[collection]} ∪ subscribedCollections st') st'
       | None => report "subscribeToCollection threw" st
       end.

(** [useRealtime.unsubscribe] *)
Definition unsubscribe (collection : string) (st : state) : state :=
  set_subscribed (subscribedCollections st ∖ {[collection]}) st.

(** Calls made by the component, events raised by a socket, and a pending
    timeout that fires. *)
Inductive event : Type :=
  | Connect
  | Disconnect
  | Subscribe (collection : string)
  | Unsubscribe (collection : string)
  | Open (i : nat)
  | Message (i : nat) (data : string)
  | SocketError (i : nat)
  | Close (i : nat)
  | Timeout (id : nat).

(** One event.  [None] when the platform cannot raise it: [open] needs a
    connecting socket, [message] an open one, [error] and [close] a socket
    that is not closed yet, and a timeout must be pending. *)
Definition step (st : state) (e : event) : option state :=
  match e with
  | Connect => Some (connectWebSocket st)
  | Disconnect => Some (disconnect st)
  | Subscribe c => Some (subscribe c st)
  | Unsubscribe c => Some (unsubscribe c st)
  | Open i =>
      match sockets st !! i with
      | Some CONNECTING => Some (onopen (set_sockets (<[i := OPEN]> (sockets st)) st))
      | _ => None
      end
  | Message i data =>
      match sockets st !! i with
      | Some OPEN => Some (onmessage data st)
      | _ => None
      end
  | SocketError i =>
      match sockets st !! i with
      | Some CLOSED | None => None
      | Some _ => Some (onerror st)
      end
  | Close i =>
      match sockets st !! i with
      | Some CLOSED | None => None
      | Some _ => Some (onclose (set_sockets (<[i := CLOSED]> (sockets st)) st))
      end
  | Timeout id =>
      if bool_decide (id ∈ (timers st).*1)
      then Some (connectWebSocket (remove_timer id st))
      else None
  end.

Fixpoint run (st : state) (es : list event) : option state :=
  match es with
  | [] => Some st
  | e :: rest =>
      match step st e with
      | Some st' => run st' rest
      | None => None
      end
  end.

End Handlers.

End Session.

(** ** Instant-search controller: the [useInstantSearch] hook

    The hook's state variables and its [abortControllerRef], with the
    controllers it has created and the searches it has in flight.  Both the
    debounce timeout and [refresh] call [performSearch(query, page)] on the
    current render; the event [Search] stands for either.  [performSearch]
    is cut at [await client.search(searchParams)]; the search settles when
    the [fetch] issued by [request] for it settles.  The hook's controllers
    and the controllers of [request] come from the same platform. *)

Module InstantSearch.
Import JS.

Definition filter_state := list (string * list string).

Record UseInstantSearchOptions := mkOptions {
  collection : string;
  searchFields : list string;
  facetFields : option (list string);
  resultsPerPage : Z;
  defaultFilters : filter_state;
  defaultSortBy : option string;
  onSearch : bool;
  onError : bool
}.

(** A call made on [onSearch] or [onError]; the two fields of the options
    say whether the callback was supplied. *)
Inductive notification : Type :=
  | OnSearch (searchQuery : string) (searchResults : json)
  | OnError (searchError : AACSearchError).

(** A call of [client.search] that has not settled: the query text of the
    [performSearch] that awaits it, and the controller and timer that
    [request] created for it. *)
Record pending_search := mkPending {
  pending_query : string;
  pending_controller : nat;
  pending_timeoutId : nat
}.

Record state := mkState {
  query : string;
  results : option json;
  loading : bool;
  error : option AACSearchError;
  page : Z;
  filters : filter_state;
  sortBy : option string;
  abortControllerRef : option nat;
  platform : Executor.platform;
  in_flight : list (nat * pending_search);
  next_request : nat;
  notified : list notification
}.

Definition initial (options : UseInstantSearchOptions) : state :=
  mkState "" None false None 1 (defaultFilters options) (defaultSortBy options)
          None Executor.empty_platform [] 0 [].

(** State setters. *)
Definition setQuery (v : string) (st : state) : state :=
  mkState v (results st) (loading st) (error st) (page st) (filters st) (sortBy st)
          (abortControllerRef st) (platform st) (in_flight st) (next_request st)
          (notified st).
Definition setResults (v : option json) (st : state) : state :=
  mkState (query st) v (loading st) (error st) (page st) (filters st) (sortBy st)
          (abortControllerRef st) (platform st) (in_flight st) (next_request st)
          (notified st).
Definition setLoading (v : bool) (st : state) : state :=
  mkState (query st) (results st) v (error st) (page st) (filters st) (sortBy st)
          (abortControllerRef st) (platform st) (in_flight st) (next_request st)
          (notified st).
Definition setError (v : option AACSearchError) (st : state) : state :=
  mkState (query st) (results st) (loading st) v (page st) (filters st) (sortBy st)
          (abortControllerRef st) (platform st) (in_flight st) (next_request st)
          (notified st).
Definition setPage (v : Z) (st : state) : state :=
  mkState (query st) (results st) (loading st) (error st) v (filters st) (sortBy st)
          (abortControllerRef st) (platform st) (in_flight st) (next_request st)
          (notified st).
Definition setFilters (v : filter_state) (st : state) : state :=
  mkState (query st) (results st) (loading st) (error st) (page st) v (sortBy st)
          (abortControllerRef st) (platform st) (in_flight st) (next_request st)
          (notified st).
Definition setSortBy (v : option string) (st : state) : state :=
  mkState (query st) (results st) (loading st) (error st) (page st) (filters st) v
          (abortControllerRef st) (platform st) (in_flight st) (next_request st)
          (notified st).
Definition set_abortControllerRef (v : option nat) (st : state) : state :=
  mkState (query st) (results st) (loading st) (error st) (page st) (filters st)
          (sortBy st) v (platform st) (in_flight st) (next_request st) (notified st).
Definition set_platform (v : Executor.platform) (st : state) : state :=
  mkState (query st) (results st) (loading st) (error st) (page st) (filters st)
          (sortBy st) (abortControllerRef st) v (in_flight st) (next_request st)
          (notified st).
Definition set_in_flight (v : list (nat * pending_search)) (n : nat)
  (st : state) : state :=
  mkState (query st) (results st) (loading st) (error st) (page st) (filters st)
          (sortBy st) (abortControllerRef st) (platform st) v n (notified st).
Definition notify (supplied : bool) (n : notification) (st : state) : state :=
  if supplied then
    mkState (query st) (results st) (loading st) (error st) (page st) (filters st)
            (sortBy st) (abortControllerRef st) (platform st) (in_flight st)
            (next_request st) (notified st ++ [n])
  else st.

(** The entry of a search in flight. *)
Fixpoint find_request {V} (r : nat) (l : list (nat * V)) : option V :=
  match l with
  | [] => None
  | (r', v) :: rest => if decide (r' = r) then Some v else find_request r rest
  end.

(** The filter string built inside [performSearch]: one parenthesised
    group per field with at least one value, pushed in [Object.entries]
    order and joined with [" && "]; [undefined] when no group was pushed. *)
Definition filter_group (field : string) (values : list string) : string :=
  "(" +:+ join " || " (map (fun v => field +:+ ":=" +:+ v) values) +:+ ")".

Definition filterParts (fs : filter_state) : list string :=
  fold_left (fun parts entry =>
               if bool_decide (0 < length entry.2)%nat
               then parts ++ [filter_group entry.1 entry.2]
               else parts) fs [].

Definition build_filter_by (fs : filter_state) : option string :=
  let parts := filterParts fs in
  if bool_decide (0 < length parts)%nat then Some (join " && " parts) else None.

Definition build_searchParams (options : UseInstantSearchOptions) (st : state)
  (searchQuery : string) (currentPage : Z) : Executor.SearchParams :=
  Executor.mkSearchParams
    (if decide (searchQuery = "") then "*" else searchQuery)
    (collection options)
    (join "," (searchFields options))
    (build_filter_by (filters st))
    (join "," <$> facetFields options)
    (sortBy st)
    currentPage
    (resultsPerPage options).

(** The error object [performSearch] builds from a caught value. *)
Definition searchError_of (err : thrown) : AACSearchError :=
  match err with
  | ErrorObject e =>
      mkError (or_else (message e) (Some (JStr "Search failed")))
              (code e) (statusCode e) (details e)
  | Exception _ m =>
      mkError (or_else (Some (JStr m)) (Some (JStr "Search failed"))) None None None
  end.

(** The updater that [addFilter] passes to [setFilters]. *)
Definition addFilter_updater (field value : string) (prev : filter_state) : filter_state :=
  let currentValues := default [] (lookup_field field prev) in
  if negb (bool_decide (value ∈ currentValues))
  then set_field field (currentValues ++ [value]) prev
  else prev.

(** [addFilter(field, value)] *)
Definition addFilter (field value : string) (st : state) : state :=
  setPage 1 (setFilters (addFilter_updater field value (filters st)) st).

(** The updater that [removeFilter] passes to [setFilters]. *)
Definition removeFilter_updater (field value : string) (prev : filter_state) : filter_state :=
  let currentValues := default [] (lookup_field field prev) in
  let newValues := filter (fun v => v ≠ value) currentValues in
  if bool_decide (length newValues = 0%nat) then without_field field prev
  else set_field field newValues prev.

(** [removeFilter(field, value)] *)
Definition removeFilter (field value : string) (st : state) : state :=
  setPage 1 (setFilters (removeFilter_updater field value (filters st)) st).

(** [clearFilters()] *)
Definition clearFilters (st : state) : state := setPage 1 (setFilters [] st).

(** [reset()] *)
Definition reset (options : UseInstantSearchOptions) (st : state) : state :=
  setSortBy (defaultSortBy options)
    (setFilters (defaultFilters options)
       (setPage 1 (setLoading false (setError None (setResults None (setQuery "" st)))))).

Inductive event : Type :=
  | SetQuery (v : string)
  | SetPage (v : Z)
  | SetFilters (v : filter_state)
  | AddFilter (field value : string)
  | RemoveFilter (field value : string)
  | ClearFilters
  | SetSortBy (v : string)
  | Reset
  | Search
  | Settle (request : nat) (env : Executor.transport).

Section Hook.

Variable JSON_parse : string -> option json.
Variable URLSearchParams_toString : list (string * string) -> string.
(** The client the hook takes from the search context. *)
Variable client : Executor.client.
Variable options : UseInstantSearchOptions.

(** [performSearch] up to [await client.search(searchParams)]: the
    controller in the ref is aborted and replaced, and [client.search] is
    called with the parameters alone. *)
Definition performSearch (searchQuery : string) (currentPage : Z) (st : state) : state :=
  let st := match abortControllerRef st with
            | Some c => set_platform (Executor.abort c (platform st)) st
            | None => st
            end in
  let '(c, pf) := Executor.new_AbortController (platform st) in
  let st := set_abortControllerRef (Some c) (set_platform pf st) in
  let st := setError None (setLoading true st) in
  let searchParams := build_searchParams options st searchQuery currentPage in
  let '(controller, timeoutId, pf) :=
    Executor.search_start URLSearchParams_toString client searchParams (platform st) in
  set_in_flight
    (in_flight st ++ [(next_request st, mkPending searchQuery controller timeoutId)])
    (S (next_request st)) (set_platform pf st).

(** [performSearch] from the moment the search settles: the [try] body
    after the [await], the [catch] and the [finally]. *)
Definition performSearch_settled (searchQuery : string) (outcome : completion json)
  (st : state) : state :=
  let st :=
    match outcome with
    | Returned searchResults =>
        let st := setResults (Some searchResults) st in
        if decide (searchQuery = "") then st
        else notify (onSearch options) (OnSearch searchQuery searchResults) st
    | Threw err =>
        if decide (name_of err = Some "AbortError") then st
        else let searchError := searchError_of err in
             notify (onError options) (OnError searchError)
                    (setError (Some searchError) st)
    end in
  set_abortControllerRef None (setLoading false st).

(** One event.  A search in flight settles as [request] settles for the
    transport outcome given; [None] when the search named is not in
    flight. *)
Definition step (st : state) (e : event) : option state :=
  match e with
  | SetQuery v => Some (setQuery v st)
  | SetPage v => Some (setPage v st)
  | SetFilters v => Some (setFilters v st)
  | AddFilter f v => Some (addFilter f v st)
  | RemoveFilter f v => Some (removeFilter f v st)
  | ClearFilters => Some (clearFilters st)
  | SetSortBy v => Some (setSortBy (Some v) st)
  | Reset => Some (reset options st)
  | Search => Some (performSearch (query st) (page st) st)
  | Settle r env =>
      match find_request r (in_flight st) with
      | Some p =>
          let '(outcome, pf) :=
            Executor.request_settle JSON_parse (pending_controller p)
                                    (pending_timeoutId p) env (platform st) in
          Some (performSearch_settled (pending_query p) outcome
                  (set_platform pf
                     (set_in_flight (filter (fun x => x.1 ≠ r) (in_flight st))
                                    (next_request st) st)))
      | None => None
      end
  end.

Fixpoint run (st : state) (es : list event) : option state :=
  match es with
  | [] => Some st
  | e :: rest =>
      match step st e with
      | Some st' => run st' rest
      | None => None
      end
  end.

End Hook.

(** *** The filter expression as the specification words it

    "For each field with a non-empty selected-value set, build
    [(field:=v1 || field:=v2 || ...)]; join all field groups with [&&].
    Absence of any filters yields no filter expression."  Written by
    recursion on the fields and on the values, for comparison with
    [build_filter_by]. *)
Fixpoint spec_or_group (field : string) (values : list string) : string :=
  match values with
  | [] => EmptyString
  | [v] => field +:+ ":=" +:+ v
  | v :: more => (field +:+ ":=" +:+ v) +:+ " || " +:+ spec_or_group field more
  end.

Fixpoint spec_filter_expression (fs : filter_state) : option string :=
  match fs with
  | [] => None
  | (field, []) :: rest => spec_filter_expression rest
  | (field, values) :: rest =>
      let group := "(" +:+ spec_or_group field values +:+ ")" in
      match spec_filter_expression rest with
      | None => Some group
      | Some expression => Some (group +:+ " && " +:+ expression)
      end
  end.

(** A filter state in which every field listed has at least one value and
    lists no value twice: what the facet checkboxes produce. *)
Definition well_formed (fs : filter_state) : Prop :=
  Forall (fun entry => entry.2 <> [] /\ NoDup entry.2) fs.

End InstantSearch.

(** ** Components fed by the instant-search hook: [InstantSearch] and
       [Pagination] *)

Module Components.
Import JS InstantSearch.

(** [handleFacetChange(field, value, checked)] of the [InstantSearch]
    component: a facet checkbox that is ticked or cleared. *)
Definition handleFacetChange (field value : string) (checked : bool) (st : state) : state :=
  if checked then addFilter field value st else removeFilter field value st.

(** [hasActiveFilters], that is [Object.keys(selectedFilters).length > 0] *)
Definition hasActiveFilters (st : state) : bool :=
  bool_decide (0 < length (filters st))%nat.

(** An entry of the array built by [getPageNumbers]: a page number or the
    string of three dots. *)
Inductive page_item : Type :=
  | PageNumber (n : Z)
  | Ellipsis.

(** [for (let i = first; i <= last; i++) pages.push(i)] *)
Definition push_range (first last : Z) : list page_item :=
  PageNumber <$> seqZ first (last - first + 1).

(** [getPageNumbers()] of the [Pagination] component, for whole numbers. *)
Definition getPageNumbers (currentPage totalPages : Z) : list page_item :=
  let maxVisible := 7 in
  if bool_decide (totalPages <= maxVisible) then push_range 1 totalPages
  else
    [PageNumber 1]
    ++ (if bool_decide (currentPage > 3) then [Ellipsis] else [])
    ++ push_range (Z.max 2 (currentPage - 1)) (Z.min (totalPages - 1) (currentPage + 1))
    ++ (if bool_decide (currentPage < totalPages - 2) then [Ellipsis] else [])
    ++ [PageNumber totalPages].

(** The numbers among the entries. *)
Definition page_numbers (pages : list page_item) : list Z :=
  omap (fun item => match item with PageNumber n => Some n | Ellipsis => None end) pages.

(** Reading the entries from left to right after page [prev]: a number
    shown without dots before it is the next page, and dots are followed by
    a number that leaves at least one page out. *)
Fixpoint follows (prev : Z) (pages : list page_item) : Prop :=
  match pages with
  | [] => True
  | PageNumber n :: rest => n = prev + 1 /\ follows n rest
  | Ellipsis :: PageNumber n :: rest => prev + 1 < n /\ follows n rest
  | Ellipsis :: _ => False
  end.

(** What [Pagination] renders: nothing when [totalPages <= 1], otherwise
    the entries of [getPageNumbers] between the two arrow buttons. *)
Definition Pagination (currentPage totalPages : Z) : option (list page_item) :=
  if bool_decide (totalPages <= 1) then None
  else Some (getPageNumbers currentPage totalPages).

(** The pages [onPageChange] can be called with from a rendered component:
    [currentPage - 1] unless the Previous button is disabled
    ([currentPage === 1]), the numbered buttons, and [currentPage + 1]
    unless the Next button is disabled ([currentPage === totalPages]). *)
Definition onPageChange_targets (currentPage totalPages : Z) : list Z :=
  (if bool_decide (currentPage = 1) then [] else [currentPage - 1])
  ++ page_numbers (getPageNumbers currentPage totalPages)
  ++ (if bool_decide (currentPage = totalPages) then [] else [currentPage + 1]).

End Components.

(** ** Conversational search hook: [useConversationalSearch]

    [sendMessage] is cut at [await client.conversationalSearch(...)]: the
    part before it, the three callbacks the hook hands to the client, which
    run in the order the client calls them, and the part after it.  A state
    updater is applied when it is queued. *)

Module Conversation.
Import JS.

Inductive Role : Type := user | assistant.

Record Message := mkMessage {
  role : Role;
  content : value;
  sources : value
}.

Record UseConversationalSearchOptions := mkOptions {
  collection : string;
  streaming : option bool;
  onChunk : bool;
  onComplete : bool;
  onError : bool
}.

(** A call made on one of the callbacks of the options, when supplied. *)
Inductive notification : Type :=
  | OnChunk (chunk : value)
  | OnComplete
  | OnError (searchError : AACSearchError).

Record state := mkState {
  messages : list Message;
  isLoading : bool;
  isStreaming : bool;
  error : option AACSearchError;
  conversationId : value;
  streamingContentRef : string;
  notified : list notification
}.

Definition initial : state := mkState [] false false None (Some JNull) "" [].

Definition setMessages (v : list Message) (st : state) : state :=
  mkState v (isLoading st) (isStreaming st) (error st) (conversationId st)
          (streamingContentRef st) (notified st).
Definition setIsLoading (v : bool) (st : state) : state :=
  mkState (messages st) v (isStreaming st) (error st) (conversationId st)
          (streamingContentRef st) (notified st).
Definition setIsStreaming (v : bool) (st : state) : state :=
  mkState (messages st) (isLoading st) v (error st) (conversationId st)
          (streamingContentRef st) (notified st).
Definition setError (v : option AACSearchError) (st : state) : state :=
  mkState (messages st) (isLoading st) (isStreaming st) v (conversationId st)
          (streamingContentRef st) (notified st).
Definition setConversationId (v : value) (st : state) : state :=
  mkState (messages st) (isLoading st) (isStreaming st) (error st) v
          (streamingContentRef st) (notified st).
Definition set_streamingContentRef (v : string) (st : state) : state :=
  mkState (messages st) (isLoading st) (isStreaming st) (error st) (conversationId st)
          v (notified st).
Definition notify (supplied : bool) (n : notification) (st : state) : state :=
  if supplied then
    mkState (messages st) (isLoading st) (isStreaming st) (error st)
            (conversationId st) (streamingContentRef st) (notified st ++ [n])
  else st.

(** [options.streaming] as a condition *)
Definition streaming_on (options : UseConversationalSearchOptions) : bool :=
  match streaming options with
  | Some b => b
  | None => false
  end.

(** [conversationId || undefined] as the [conversation_id] of the
    parameters, whose type admits a string. *)
Definition conversation_id_param (v : value) : option string :=
  match v with
  | Some (JStr s) => if decide (s = "") then None else Some s
  | _ => None
  end.

(** [err.message] *)
Definition message_of (err : thrown) : value :=
  match err with
  | ErrorObject e => message e
  | Exception _ m => Some (JStr m)
  end.

(** The [searchError] built by the [onError] callback handed to the client,
    and the one built by the [catch] block of [sendMessage]. *)
Definition onError_searchError (err : thrown) : AACSearchError :=
  mkError (message_of err) None None None.

Definition catch_searchError (err : thrown) : AACSearchError :=
  mkError (or_else (message_of err) (Some (JStr "Conversational search failed")))
          (match err with ErrorObject e => code e | Exception _ _ => None end)
          (match err with ErrorObject e => statusCode e | Exception _ _ => None end)
          None.

(** The updater queued by the [onChunk] callback: the last message takes
    the streamed text when it is the assistant's, otherwise an assistant
    message is pushed. *)
Definition streaming_updater (text : string) (prev : list Message) : list Message :=
  match last prev with
  | Some lastMsg =>
      match role lastMsg with
      | assistant =>
          removelast prev ++ [mkMessage assistant (Some (JStr text)) (sources lastMsg)]
      | user => prev ++ [mkMessage assistant (Some (JStr text)) None]
      end
  | None => prev ++ [mkMessage assistant (Some (JStr text)) None]
  end.

(** [result.sources?.hits || []] *)
Definition sources_hits (result : json) : completion value :=
  match get result "sources" with
  | Threw t => Threw t
  | Returned None => Returned (Some (JArr []))
  | Returned (Some JNull) => Returned (Some (JArr []))
  | Returned (Some s) =>
      match get s "hits" with
      | Threw t => Threw t
      | Returned hits => Returned (or_else hits (Some (JArr [])))
      end
  end.

Section Hook.

Variable JSON_parse : string -> option json.
Variable JSON_stringify : Stream.ConversationalSearchParams -> string.
Variable client : Executor.client.
Variable options : UseConversationalSearchOptions.

(** [sendMessage] up to the call of [client.conversationalSearch]. *)
Definition sendMessage_start (message : string) (st : state) : state :=
  let st := setMessages (messages st ++ [mkMessage user (Some (JStr message)) None]) st in
  let st := setIsLoading true st in
  let st := setIsStreaming (streaming_on options) st in
  let st := setError None st in
  if streaming_on options then set_streamingContentRef "" st else st.

Definition params_of (message : string) (st : state) : Stream.ConversationalSearchParams :=
  Stream.mkParams (conversation_id_param (conversationId st)) message
                  (collection options) None (streaming options).

(** The three callbacks passed as streaming options. *)
Definition callback (c : Stream.sink_call) (st : state) : state :=
  match c with
  | Stream.Chunk chunk =>
      let text := streamingContentRef st +:+ toString_value chunk in
      let st := set_streamingContentRef text st in
      let st := setMessages (streaming_updater text (messages st)) st in
      notify (onChunk options) (OnChunk chunk) st
  | Stream.Complete =>
      notify (onComplete options) OnComplete (setIsStreaming false st)
  | Stream.Error err =>
      let searchError := onError_searchError err in
      notify (onError options) (OnError searchError) (setError (Some searchError) st)
  end.

(** The callbacks run in the order the client calls them. *)
Definition callbacks (called : list Stream.sink_call) (st : state) : state :=
  foldl (fun st c => callback c st) st called.

(** The [catch] block of [sendMessage]. *)
Definition sendMessage_catch (err : thrown) (st : state) : state :=
  let searchError := catch_searchError err in
  notify (onError options) (OnError searchError) (setError (Some searchError) st).

(** [sendMessage] from the moment the call settles. *)
Definition sendMessage_settled (outcome : completion json) (st : state) : state :=
  let st :=
    match outcome with
    | Threw err => sendMessage_catch err st
    | Returned result =>
        let appended :=
          if negb (streaming_on options) then
            match get result "answer" with
            | Threw t => Threw t
            | Returned answer =>
                match sources_hits result with
                | Threw t => Threw t
                | Returned hits =>
                    Returned (setMessages
                                (messages st ++ [mkMessage assistant answer hits]) st)
                end
            end
          else Returned st in
        match appended with
        | Threw t => sendMessage_catch t st
        | Returned st' =>
            match get result "conversation_id" with
            | Threw t => sendMessage_catch t st'
            | Returned cid => setConversationId cid st'
            end
        end
    end in
  setIsStreaming false (setIsLoading false st).

(** [sendMessage(message)] against a network that behaves as [env]. *)
Definition sendMessage (message : string) (env : Stream.network)
  (pf : Executor.platform) (st : state) : state * Executor.platform :=
  let st := sendMessage_start message st in
  let '(outcome, calls, pf) :=
    Stream.conversationalSearch JSON_parse JSON_stringify client
      (params_of message st) (Some (Stream.mkOptions true true true)) env pf in
  let st := callbacks calls st in
  (sendMessage_settled outcome st, pf).

End Hook.

(** [reset()] *)
Definition reset (st : state) : state :=
  setIsStreaming false
    (setIsLoading false (setError None (setConversationId (Some JNull) (setMessages [] st)))).

End Conversation.

(** * Properties *)

(** ** Objects used as maps *)

Section ObjectLemmas.
Import JS.
Context {V : Type}.
Implicit Types (o : list (string * V)) (k : string) (v : V).

Lemma lookup_replace_field o k k' v :
  lookup_field k' (replace_field k v o) =
  if decide (k = k') then (fun _ => v) <$> lookup_field k o else lookup_field k' o.
Proof.
  induction o as [|[k0 v0] o IH]; simpl.
  - by destruct (decide (k = k')).
  - destruct (decide (k0 = k)) as [->|Hne]; simpl.
    + destruct (decide (k = k')); by simplify_eq.
    + destruct (decide (k0 = k')) as [->|Hne'].
      * destruct (decide (k = k')); [by simplify_eq | done].
      * apply IH.
Qed.

Lemma lookup_insert_index o n k k' v :
  lookup_field k o = None ->
  lookup_field k' (insert_index n k v o) =
  if decide (k = k') then Some v else lookup_field k' o.
Proof.
  induction o as [|[k0 v0] o IH]; simpl; intros Hk.
  - by destruct (decide (k = k')).
  - destruct (decide (k0 = k)) as [->|Hne]; [done|].
    destruct (array_index k0) as [m|]; [destruct (m <? n)%N|]; simpl.
    + destruct (decide (k0 = k')) as [->|Hne'].
      * by destruct (decide (k = k')); simplify_eq.
      * by apply IH.
    + destruct (decide (k = k')); [done|].
      by destruct (decide (k0 = k')).
    + destruct (decide (k = k')); [done|].
      by destruct (decide (k0 = k')).
Qed.

Lemma lookup_field_app o1 o2 k :
  lookup_field k (o1 ++ o2) =
  match lookup_field k o1 with
  | Some v => Some v
  | None => lookup_field k o2
  end.
Proof.
  induction o1 as [|[k0 v0] o1 IH]; simpl; [done|].
  by destruct (decide (k0 = k)).
Qed.

(** Reading after [{ ...o, [k]: v }]. *)
Lemma lookup_set_field o k k' v :
  lookup_field k' (set_field k v o) =
  if decide (k = k') then Some v else lookup_field k' o.
Proof.
  unfold set_field, has_field.
  case_bool_decide as Hk.
  - rewrite lookup_replace_field. destruct (decide (k = k')); [|done].
    by destruct Hk as [x ->].
  - assert (lookup_field k o = None) as Hnone.
    { destruct (lookup_field k o); [|done]. by destruct Hk. }
    destruct (array_index k).
    + by apply lookup_insert_index.
    + rewrite lookup_field_app. simpl.
      destruct (decide (k = k')) as [<-|Hne].
      * by rewrite Hnone.
      * by destruct (lookup_field k' o).
Qed.

(** Reading after [const { [k]: _, ...rest } = o]. *)
Lemma lookup_without_field o k k' :
  lookup_field k' (without_field k o) =
  if decide (k = k') then None else lookup_field k' o.
Proof.
  unfold without_field.
  induction o as [|[k0 v0] o IH]; simpl.
  - by destruct (decide (k = k')).
  - rewrite filter_cons. simpl. destruct (decide (k0 ≠ k)) as [Hne|Heq]; simpl.
    + destruct (decide (k0 = k')) as [->|Hne'].
      * by destruct (decide (k = k')); simplify_eq.
      * apply IH.
    + apply dec_stable in Heq as ->.
      destruct (decide (k = k')); [apply IH|]. rewrite IH.
      by destruct (decide (k = k')).
Qed.

End ObjectLemmas.

(** ** Instant-search controller *)

Section InstantSearchFacts.
Import JS InstantSearch.

Lemma join_map_or_group field values :
  join " || " (map (fun v => field +:+ ":=" +:+ v) values) = spec_or_group field values.
Proof.
  induction values as [|v [|w more] IH]; [done..|].
  change (join " || " (map (fun v => field +:+ ":=" +:+ v) (v :: w :: more)))
    with ((field +:+ ":=" +:+ v) +:+ " || "
          +:+ join " || " (map (fun v => field +:+ ":=" +:+ v) (w :: more))).
  by rewrite IH.
Qed.

(** The loop that pushes the groups, started from any array. *)
Lemma fold_filterParts (fs : filter_state) (parts : list string) :
  fold_left (fun parts entry =>
               if bool_decide (0 < length entry.2)%nat
               then parts ++ [filter_group entry.1 entry.2]
               else parts) fs parts
  = parts ++ filterParts fs.
Proof.
  unfold filterParts. revert parts.
  induction fs as [|[f vs] fs IH]; intros parts; simpl.
  - by rewrite app_nil_r.
  - rewrite IH. rewrite (IH (if bool_decide _ then _ else _)).
    case_bool_decide; simpl; [|done].
    by rewrite <- app_assoc.
Qed.

Lemma filterParts_cons field values (fs : filter_state) :
  filterParts ((field, values) :: fs) =
  match values with
  | [] => filterParts fs
  | _ :: _ => filter_group field values :: filterParts fs
  end.
Proof.
  unfold filterParts at 1. simpl. rewrite fold_filterParts.
  by destruct values.
Qed.

Lemma build_filter_by_spec (fs : filter_state) :
  build_filter_by fs = spec_filter_expression fs.
Proof.
  unfold build_filter_by.
  induction fs as [|[f vs] fs IH]; [done|].
  rewrite filterParts_cons. destruct vs as [|v vs]; [exact IH|].
  cbn [spec_filter_expression]. rewrite <- IH.
  unfold filter_group. rewrite join_map_or_group.
  by destruct (filterParts fs) as [|g gs].
Qed.

Lemma removeFilter_lookup (st : state) (field value : string) :
  lookup_field field (filters (removeFilter field value st)) =
  match filter (fun v => v ≠ value) (default [] (lookup_field field (filters st))) with
  | [] => None
  | newValues => Some newValues
  end.
Proof.
  unfold removeFilter, removeFilter_updater. simpl.
  destruct (filter _ _) as [|x xs] eqn:Hf; simpl.
  - rewrite lookup_without_field. by destruct (decide (field = field)).
  - rewrite lookup_set_field. by destruct (decide (field = field)).
Qed.

Lemma addFilter_updater_selected (prev : filter_state) (field value : string) :
  value ∈ default [] (lookup_field field (addFilter_updater field value prev)).
Proof.
  unfold addFilter_updater. case_bool_decide as Hin; simpl.
  - done.
  - rewrite lookup_set_field. destruct (decide (field = field)); [|done].
    simpl. set_solver.
Qed.

Lemma addFilter_updater_present (prev : filter_state) (field value : string) :
  value ∈ default [] (lookup_field field prev) ->
  addFilter_updater field value prev = prev.
Proof. intros Hin. unfold addFilter_updater. by rewrite bool_decide_eq_true_2. Qed.

(** [addFilter] keeps every selected-value list free of duplicates. *)
Lemma addFilter_NoDup (st : state) (field value : string) :
  (forall f vs, lookup_field f (filters st) = Some vs -> NoDup vs) ->
  forall f vs, lookup_field f (filters (addFilter field value st)) = Some vs -> NoDup vs.
Proof.
  intros Hnd f vs. unfold addFilter, addFilter_updater. simpl.
  case_bool_decide as Hin; simpl.
  - apply Hnd.
  - rewrite lookup_set_field. destruct (decide (field = f)) as [<-|Hne].
    + intros [= <-]. apply NoDup_app. split_and!.
      * destruct (lookup_field field (filters st)) eqn:E; [by eapply Hnd|constructor].
      * intros x Hx ->%list_elem_of_singleton. done.
      * apply NoDup_singleton.
    + apply Hnd.
Qed.

(** C9.  When the value is already among the values selected for the field,
    [addFilter(field, value)] leaves the filters as they are and sets the
    page to 1; and for every state, a second [addFilter] with the same
    arguments changes nothing the first one had not already done. *)
Theorem addFilter_idempotent :
  (forall (st : state) (field value : string),
      value ∈ default [] (lookup_field field (filters st)) ->
      filters (addFilter field value st) = filters st
      /\ page (addFilter field value st) = 1)
  /\ (forall (st : state) (field value : string),
         addFilter field value (addFilter field value st) = addFilter field value st).
Proof.
  split.
  - intros st field value Hin. split; [|done].
    unfold addFilter. simpl. by apply addFilter_updater_present.
  - intros st field value. unfold addFilter. simpl.
    rewrite addFilter_updater_present; [done|].
    apply addFilter_updater_selected.
Qed.

Lemma addFilter_idempotent_witness :
  let st := setFilters [("category", ["Electronics"; "Audio"])]
              (setPage 4 (initial (mkOptions "products" ["name"] None 10 [] None true true))) in
  "Audio" ∈ default [] (lookup_field "category" (filters st))
  /\ filters (addFilter "category" "Audio" st) = filters st
  /\ page (addFilter "category" "Audio" st) = 1.
Proof.
  intros st.
  assert ("Audio" ∈ default [] (lookup_field "category" (filters st))) as Hin.
  { vm_compute. set_solver. }
  split; [exact Hin|].
  exact (proj1 addFilter_idempotent st "category" "Audio" Hin).
Defined.

(** C8.  The filter expression compiled by [performSearch] is the one the
    specification describes, for every filter state: one parenthesised
    OR-group per field that has values, the groups joined with [&&], and no
    expression when no field has values.  Empty query text is sent as [*]
    and any other text as it is.  In the scenario of the specification,
    [{category: ["Electronics"]}] with the text [laptop] gives
    [(category:=Electronics)]; adding [Audio] gives
    [(category:=Electronics || category:=Audio)]; removing both values
    leaves no [category] key and no filter expression.  After any
    [removeFilter] the field is either absent or has at least one value. *)
Theorem filter_compilation :
  (forall fs : filter_state, build_filter_by fs = spec_filter_expression fs)
  /\ (forall options st currentPage,
         Executor.q (build_searchParams options st "" currentPage) = "*")
  /\ (forall options st currentPage c text,
         Executor.q (build_searchParams options st (String c text) currentPage)
         = String c text)
  /\ (forall options currentPage,
         let st0 := setFilters [("category", ["Electronics"])] (initial options) in
         let st1 := addFilter "category" "Audio" st0 in
         let st2 := removeFilter "category" "Audio"
                      (removeFilter "category" "Electronics" st1) in
         let compiled st := build_searchParams options st "laptop" currentPage in
         Executor.filter_by (compiled st0) = Some "(category:=Electronics)"
         /\ Executor.q (compiled st0) = "laptop"
         /\ Executor.filter_by (compiled st1)
            = Some "(category:=Electronics || category:=Audio)"
         /\ filters st2 = []
         /\ lookup_field "category" (filters st2) = None
         /\ Executor.filter_by (compiled st2) = None)
  /\ (forall st field value,
         lookup_field field (filters (removeFilter field value st)) = None
         \/ exists v vs,
             lookup_field field (filters (removeFilter field value st)) = Some (v :: vs)).
Proof.
  split_and!.
  - apply build_filter_by_spec.
  - done.
  - done.
  - intros options currentPage. cbv zeta. split_and!; vm_compute; reflexivity.
  - intros st field value. rewrite removeFilter_lookup.
    destruct (filter _ _) as [|v vs]; [by left | right; eauto].
Qed.

(** The signal that reaches [fetch] for a search belongs to the controller
    that [request] creates, the one after the controller [performSearch]
    has just put in its ref. *)
Lemma performSearch_signal URLSearchParams_toString client options
  (searchQuery : string) (currentPage : Z) (st : state) :
  let st' := performSearch URLSearchParams_toString client options
                           searchQuery currentPage st in
  exists c,
    abortControllerRef st' = Some c
    /\ Executor.fetch_signal <$> last (Executor.fetches (platform st')) = Some (Some (S c)).
Proof.
  unfold performSearch.
  destruct (abortControllerRef st) as [c0|]; simpl;
    (eexists; split; [reflexivity|]; by rewrite last_snoc).
Qed.

(** C1.  Two overlapping executions on one hook: a search for [lap] is
    started, then a search for [laptop]; the response to the newer search
    arrives first and the response to the older one afterwards.  The second
    [performSearch] aborts the controller of the first, but the two
    [fetch] calls hold the signals of other controllers and both stay in
    flight.  The newer result is stored, and then the older result
    replaces it. *)
Theorem older_result_replaces_newer
  (URLSearchParams_toString : list (string * string) -> string)
  (client : Executor.client) (options : UseInstantSearchOptions) :
  let newer := Executor.mkResponse 200 "OK" (JSONText.dq "{'found':1,'hits':['laptop']}") in
  let older := Executor.mkResponse 200 "OK" (JSONText.dq "{'found':2,'hits':['lap']}") in
  let trace := [SetQuery "lap"; Search; SetQuery "laptop"; Search;
                Settle 1 (Executor.HeadersArrive newer);
                Settle 0 (Executor.HeadersArrive older)] in
  let go n := run JSONText.parse URLSearchParams_toString client options
                  (initial options) (take n trace) in
  let controllers st :=
    (Executor.aborted (platform st),
     Executor.fetch_signal <$> Executor.fetches (platform st),
     (in_flight st).*1) in
  controllers <$> go 4%nat = Some ([0%nat], [Some 1%nat; Some 3%nat], [0%nat; 1%nat])
  /\ results <$> go 5%nat
     = Some (Some (JObj [("found", JNum "1"); ("hits", JArr [JStr "laptop"])]))
  /\ results <$> go 6%nat
     = Some (Some (JObj [("found", JNum "2"); ("hits", JArr [JStr "lap"])])).
Proof.
  destruct options as [c sf ff rpp df ds [] oe]; split_and!; vm_compute; reflexivity.
Qed.

End InstantSearchFacts.

(** ** Request executor *)

Section ExecutorFacts.
Import JS Executor.

Variable JSON_parse : string -> option json.
Implicit Types (cl : client) (path : string) (options : RequestInit)
  (pf : platform) (env : transport).

Lemma filter_other_timers_twice (id : nat) (l : list (nat * Z)) :
  filter (fun t => t.1 ≠ id) (filter (fun t => t.1 ≠ id) l)
  = filter (fun t => t.1 ≠ id) l.
Proof.
  induction l as [|t l IH]; [done|].
  rewrite filter_cons. destruct (decide (t.1 ≠ id)); [|done].
  rewrite filter_cons. destruct (decide (t.1 ≠ id)); [|done]. by rewrite IH.
Qed.

(** The [catch] block clears the timer whatever it rethrows. *)
Lemma request_catch_clears (timeoutId : nat) (error : thrown) pf :
  (request_catch timeoutId error pf).2 = clearTimeout timeoutId pf.
Proof. unfold request_catch. by destruct (decide _). Qed.

(** However [fetch] settles, the pending timers afterwards are the ones
    pending before, less the timer of the call. *)
Lemma request_settle_timers (controller timeoutId : nat) env pf :
  timers (request_settle JSON_parse controller timeoutId env pf).2
  = filter (fun t => t.1 ≠ timeoutId) (timers pf).
Proof.
  unfold request_settle. destruct env as [r|msg|].
  - destruct (negb (ok r)).
    + rewrite request_catch_clears. apply filter_other_timers_twice.
    + destruct (response_json JSON_parse r); [done|].
      rewrite request_catch_clears. apply filter_other_timers_twice.
  - by rewrite request_catch_clears.
  - rewrite request_catch_clears. apply filter_other_timers_twice.
Qed.

Lemma request_settle_clears (controller timeoutId : nat) env pf :
  Forall (fun t => t.1 ≠ timeoutId)
         (timers (request_settle JSON_parse controller timeoutId env pf).2).
Proof.
  rewrite request_settle_timers. apply Forall_forall.
  by intros t [? _]%list_elem_of_filter.
Qed.

(** X5.  With timer identifiers handed out in increasing order, a call to
    [request] leaves the pending timers exactly as it found them, however
    the [fetch] settles: its own timer is gone and no other is touched. *)
Lemma request_restores_timers cl path options env pf :
  Forall (fun t => (t.1 < next_timer pf)%nat) (timers pf) ->
  timers (request JSON_parse cl path options env pf).2 = timers pf.
Proof.
  intros Hwf. unfold request, request_start.
  cbn [new_AbortController setTimeout]. rewrite request_settle_timers. simpl.
  rewrite filter_app, filter_cons. simpl.
  destruct (decide (next_timer pf ≠ next_timer pf)); [done|].
  rewrite filter_nil, app_nil_r.
  induction (timers pf) as [|t l IH]; [done|].
  apply Forall_cons in Hwf as [Ht Hl]. rewrite filter_cons.
  destruct (decide (t.1 ≠ next_timer pf)) as [_|Heq]; [by rewrite IH|].
  apply dec_stable in Heq. lia.
Qed.

(** C4.  A call arms one timer with the client's deadline and hands the
    signal of its own controller to [fetch].  When the deadline passes
    first, the controller is aborted and the caller receives the error
    with code [TIMEOUT].  However [fetch] settles, the timer of the call is
    not pending afterwards. *)
Theorem request_deadline cl path options pf :
  let '(controller, timeoutId, pf1) := request_start cl path options pf in
  request JSON_parse cl path options DeadlinePasses pf
    = request_settle JSON_parse controller timeoutId DeadlinePasses pf1
  /\ (timeoutId, timeout cl) ∈ timers pf1
  /\ fetch_signal <$> last (fetches pf1) = Some (Some controller)
  /\ (request JSON_parse cl path options DeadlinePasses pf).1
       = Threw (ErrorObject timeout_error)
  /\ code timeout_error = Some (JStr "TIMEOUT")
  /\ controller ∈ aborted (request JSON_parse cl path options DeadlinePasses pf).2
  /\ (forall env,
         Forall (fun t => t.1 ≠ timeoutId)
                (timers (request JSON_parse cl path options env pf).2)).
Proof.
  unfold request.
  destruct (request_start cl path options pf) as [[controller timeoutId] pf1] eqn:Hs.
  unfold request_start in Hs. simpl in Hs. injection Hs as <- <- <-.
  split_and!.
  - done.
  - simpl. set_solver.
  - simpl. by rewrite last_snoc.
  - done.
  - done.
  - simpl. set_solver.
  - intros env. apply request_settle_clears.
Qed.

(** C3 (amended).  What reaches the caller on each failure path: the
    [TIMEOUT] error object when the deadline passes; an error object
    carrying the status for a response outside 200-299, with the default
    message when the body is not JSON; the [TypeError] of [fetch] itself on
    a network failure; the [SyntaxError] of [response.json()] itself when a
    success body is not JSON. *)
Theorem request_failure_values cl path options pf :
  (request JSON_parse cl path options DeadlinePasses pf).1
    = Threw (ErrorObject timeout_error)
  /\ (forall r, ok r = false ->
        exists e,
          (request JSON_parse cl path options (HeadersArrive r) pf).1
            = Threw (ErrorObject e)
          /\ statusCode e = Some (status r)
          /\ (JSON_parse (body_text r) = None ->
              e = mkError (Some (JStr ("API request failed: " +:+ statusText r)))
                          None (Some (status r)) None))
  /\ (forall msg,
        (request JSON_parse cl path options (NetworkFailure msg) pf).1
          = Threw (Exception "TypeError" msg))
  /\ (forall r, ok r = true -> JSON_parse (body_text r) = None ->
        (request JSON_parse cl path options (HeadersArrive r) pf).1
          = Threw (Exception "SyntaxError" "Unexpected token in JSON")).
Proof.
  unfold request, request_start. simpl. split_and!.
  - done.
  - intros r Hok. rewrite Hok. simpl. eexists. split; [reflexivity|]. split.
    + unfold status_error, response_json.
      destruct (JSON_parse (body_text r)) as [errorData|]; [|done].
      by destruct errorData.
    + intros Hparse. unfold status_error, response_json. by rewrite Hparse.
  - done.
  - intros r Hok Hparse. rewrite Hok. simpl. unfold response_json. by rewrite Hparse.
Qed.

End ExecutorFacts.

(** The amended statement at a 503 with an HTML body and at a 200 with an
    HTML body. *)
Lemma request_failure_values_witness :
  let cl := Executor.constructor (Executor.mkConfig "key" None None None) in
  let bad := Executor.mkResponse 503 "Service Unavailable" "<html>" in
  let good := Executor.mkResponse 200 "OK" "<html>" in
  (Executor.ok bad = false /\ Executor.ok good = true
   /\ JSONText.parse "<html>" = None)
  /\ (exists e,
        (Executor.request JSONText.parse cl "/api/v1/collections"
           (Executor.mkInit (Some "GET") [] None) (Executor.HeadersArrive bad)
           Executor.empty_platform).1 = JS.Threw (JS.ErrorObject e)
        /\ JS.statusCode e = Some 503)
  /\ (Executor.request JSONText.parse cl "/api/v1/collections"
        (Executor.mkInit (Some "GET") [] None) (Executor.HeadersArrive good)
        Executor.empty_platform).1
     = JS.Threw (JS.Exception "SyntaxError" "Unexpected token in JSON").
Proof.
  intros cl bad good.
  pose proof (request_failure_values JSONText.parse cl "/api/v1/collections"
                (Executor.mkInit (Some "GET") [] None) Executor.empty_platform)
    as (_ & Hstatus & _ & Hparse).
  assert (Executor.ok bad = false) as Hbad by (vm_compute; reflexivity).
  assert (Executor.ok good = true) as Hgood by (vm_compute; reflexivity).
  assert (JSONText.parse "<html>" = None) as Hhtml by (vm_compute; reflexivity).
  split; [by split_and!|]. split.
  - destruct (Hstatus bad Hbad) as (e & He & Hcode & _). by exists e.
  - exact (Hparse good Hgood Hhtml).
Defined.

(** C3 (as stated, refuted).  A network failure and an unparsable success
    body reach the caller as the platform's own [TypeError] and
    [SyntaxError], not as an error object. *)
Lemma request_rethrows_platform_exceptions :
  let cl := Executor.constructor (Executor.mkConfig "key" None None None) in
  let call env :=
    (Executor.request JSONText.parse cl "/api/v1/collections"
       (Executor.mkInit (Some "GET") [] None) env Executor.empty_platform).1 in
  call (Executor.NetworkFailure "Failed to fetch")
    = JS.Threw (JS.Exception "TypeError" "Failed to fetch")
  /\ call (Executor.HeadersArrive (Executor.mkResponse 200 "OK" "<html>"))
    = JS.Threw (JS.Exception "SyntaxError" "Unexpected token in JSON").
Proof. split; vm_compute; reflexivity. Qed.

(** ** Conversational search and the streaming parser *)

Section StreamFacts.
Import JS Executor Stream.

Variable JSON_parse : string -> option json.
Variable JSON_stringify : ConversationalSearchParams -> string.

Lemma append_inv_head (s a b : string) : s +:+ a = s +:+ b -> a = b.
Proof. induction s as [|c s IH]; simpl; [done|]. intros [= H]. by apply IH. Qed.

Lemma request_catch_fetches (timeoutId : nat) (error : thrown) (pf : platform) :
  fetches (request_catch timeoutId error pf).2 = fetches pf.
Proof. unfold request_catch. by destruct (decide _). Qed.

(** Settling issues no further [fetch]. *)
Lemma request_settle_fetches (controller timeoutId : nat) (env : transport)
  (pf : platform) :
  fetches (request_settle JSON_parse controller timeoutId env pf).2 = fetches pf.
Proof.
  unfold request_settle. destruct env as [r|msg|].
  - destruct (negb (ok r)); [by rewrite request_catch_fetches|].
    destruct (response_json JSON_parse r); [done|]. by rewrite request_catch_fetches.
  - by rewrite request_catch_fetches.
  - by rewrite request_catch_fetches.
Qed.


(** *** The decoder buffers across reads *)

Lemma append_assoc (a b c : string) : (a +:+ b) +:+ c = a +:+ b +:+ c.
Proof.
  induction a as [|x a IH]; [done|].
  change (String x ((a +:+ b) +:+ c) = String x (a +:+ b +:+ c)). by rewrite IH.
Qed.

(** Decoding two byte sequences one after the other, the decoder carried
    over, yields the text of decoding them joined: a multi-byte character
    cut by a read is completed by the next read. *)
Lemma decode_app (a b : list Byte.byte) (d : decoder) :
  decode (a ++ b) d =
  let '(s1, d1) := decode a d in
  let '(s2, d2) := decode b d1 in
  (s1 +:+ s2, d2).
Proof.
  revert d. induction a as [|x a IH]; intros d; simpl.
  - by destruct (decode b d).
  - destruct (decode_byte (Byte.to_N x) d) as [cps d0].
    destruct (serialize cps d0) as [s0 d0'].
    rewrite IH. destruct (decode a d0') as [s1 d1].
    destruct (decode b d1) as [s2 d2]. by rewrite append_assoc.
Qed.

(** *** Reads that end at a line feed *)

Lemma split_not_nil (sep : ascii) (s : string) : split sep s <> [].
Proof.
  destruct s as [|c s]; simpl; [done|].
  destruct (decide (c = sep)); [done|]. by destruct (split sep s).
Qed.

Lemma split_app_sep (sep : ascii) (s1 s2 : string) :
  split sep (s1 +:+ String sep s2) = split sep s1 ++ split sep s2.
Proof.
  induction s1 as [|c s1 IH].
  - change (split sep (String sep s2) = [EmptyString] ++ split sep s2).
    simpl. by destruct (decide (sep = sep)).
  - change (split sep (String c (s1 +:+ String sep s2))
            = split sep (String c s1) ++ split sep s2).
    simpl. rewrite IH. destruct (decide (c = sep)); [done|].
    pose proof (split_not_nil sep s1). by destruct (split sep s1).
Qed.

(** A line is processed without regard to the decoder. *)
Lemma process_line_with_td options (line : string) (d : decoder) (st : loop_state) :
  process_line JSON_parse options line (with_td d st) =
  match process_line JSON_parse options line st with
  | Returned st' => Returned (with_td d st')
  | Threw t => Threw t
  end.
Proof.
  unfold process_line. destruct (startsWith "data: " line); [|done].
  destruct (JSON_parse (slice 6 line)) as [data|]; [|done].
  destruct (get data "type") as [ty|]; [|done].
  destruct (is_string ty "token").
  - destruct (get data "content"); [|done]. unfold call_if. by destruct (onChunk options).
  - destruct (is_string ty "result"); [|done]. by destruct (get data "data").
Qed.

Lemma process_lines_with_td options (lines : list string) (d : decoder)
  (st : loop_state) :
  process_lines JSON_parse options lines (with_td d st) =
  ((with_td d (process_lines JSON_parse options lines st).1),
   (process_lines JSON_parse options lines st).2).
Proof.
  revert st. induction lines as [|line lines IH]; intros st; simpl; [done|].
  rewrite process_line_with_td.
  destruct (process_line JSON_parse options line st) as [st'|t]; [apply IH | done].
Qed.

Lemma process_lines_app options (l1 l2 : list string) (st : loop_state) :
  process_lines JSON_parse options (l1 ++ l2) st =
  match process_lines JSON_parse options l1 st with
  | (st', None) => process_lines JSON_parse options l2 st'
  | (st', Some t) => (st', Some t)
  end.
Proof.
  revert st. induction l1 as [|line l1 IH]; intros st; simpl; [done|].
  destruct (process_line JSON_parse options line st) as [st'|t]; [apply IH | done].
Qed.

Lemma process_chunk_lines options (b : list Byte.byte) (st : loop_state)
  (chunk : string) (d : decoder) :
  decode b (td st) = (chunk, d) ->
  process_chunk JSON_parse options b st =
  (with_td d (process_lines JSON_parse options (split "010" chunk) st).1,
   (process_lines JSON_parse options (split "010" chunk) st).2).
Proof.
  intros Hd. unfold process_chunk. rewrite Hd.
  fold (with_td d st). apply process_lines_with_td.
Qed.

Lemma with_td_twice (d d' : decoder) (st : loop_state) :
  with_td d (with_td d' st) = with_td d st.
Proof. done. Qed.

(** A read whose text ends with a line feed, then a second read, against
    the two delivered as one. *)
Lemma process_chunk_at_line_feed options (b1 b2 : list Byte.byte) (st : loop_state)
  (t1 : string) (d1 : decoder) :
  decode b1 (td st) = (t1 +:+ String "010" "", d1) ->
  match process_chunk JSON_parse options b1 st with
  | (st1, None) =>
      process_chunk JSON_parse options b2 st1
      = process_chunk JSON_parse options (b1 ++ b2) st
  | (st1, Some t) =>
      exists st', process_chunk JSON_parse options (b1 ++ b2) st = (st', Some t)
                  /\ observable st1 = observable st'
  end.
Proof.
  intros Hd. destruct (decode b2 d1) as [t2 d2] eqn:Hd2.
  assert (decode (b1 ++ b2) (td st) = (t1 +:+ String "010" t2, d2)) as Hd12.
  { rewrite decode_app, Hd, Hd2. by rewrite append_assoc. }
  rewrite (process_chunk_lines options b1 st _ _ Hd).
  rewrite (process_chunk_lines options (b1 ++ b2) st _ _ Hd12).
  rewrite !split_app_sep, !process_lines_app.
  destruct (process_lines JSON_parse options (split "010" t1) st) as [stA [t|]];
    cbn [fst snd].
  - eexists. split; [reflexivity | done].
  - change (split "010" "") with [EmptyString].
    change (process_lines JSON_parse options [EmptyString] stA) with (stA, @None thrown).
    cbn [fst snd].
    rewrite (process_chunk_lines options b2 (with_td d1 stA) t2 d2 Hd2).
    by rewrite process_lines_with_td.
Qed.

(** X6.  Merging a read whose text ends with a line feed into the read
    that follows it changes nothing a caller can see: the answer, the
    metadata, the callbacks and the thrown value, if any, are the same. *)
Lemma split_at_line_feed options (b1 b2 : list Byte.byte)
  (rest : list (list Byte.byte)) (fin : stream_end) (st : loop_state)
  (t1 : string) (d1 : decoder) :
  decode b1 (td st) = (t1 +:+ String "010" "", d1) ->
  let separate := read_loop JSON_parse options (b1 :: b2 :: rest) fin st in
  let merged := read_loop JSON_parse options ((b1 ++ b2) :: rest) fin st in
  observable separate.1 = observable merged.1 /\ separate.2 = merged.2.
Proof.
  intros Hd. pose proof (process_chunk_at_line_feed options b1 b2 st t1 d1 Hd) as H.
  cbn [read_loop].
  destruct (process_chunk JSON_parse options b1 st) as [st1 [t|]].
  - destruct H as (st' & -> & Hobs). done.
  - by rewrite H.
Qed.

(** C2.  One token record whose content ends in a two-byte character, sent
    as 41 bytes.  Read in one piece the answer is the content.  Cut inside
    the [data: ] prefix, neither piece is a record and the answer is empty;
    cut inside the JSON text, or between the two bytes of the character,
    the first piece fails to parse and the call rejects.  The decoder
    itself holds the first byte of the character back. *)
Theorem record_split_across_reads (cl : client) (params : ConversationalSearchParams)
  (pf : platform) :
  let body :=
    JSONText.wire ("data: {'type':'token','content':'café'}" +:+ String "010" "") in
  let consume reads :=
    (streamConversationalSearch JSONText.parse JSON_stringify cl params
       (mkOptions true true true) (StreamBody reads Done) pf).1 in
  let answered (answer : string) :=
    Returned (JObj [("conversation_id", JStr ""); ("answer", JStr answer);
                    ("sources", JObj [("hits", JArr []); ("found", JNum "0")]);
                    ("suggested_questions", JArr [])]) in
  let failed := Exception "SyntaxError" "Unexpected token in JSON" in
  length body = 41%nat
  /\ consume [body] = (answered "café", [Chunk (Some (JStr "café")); Complete])
  /\ consume [take 2 body; drop 2 body] = (answered "", [Complete])
  /\ consume [take 20 body; drop 20 body] = (Threw failed, [Error failed])
  /\ consume [take 37 body; drop 37 body] = (Threw failed, [Error failed])
  /\ (decode (take 37 body) new_TextDecoder).1
     = JSONText.dq "data: {'type':'token','content':'caf".
Proof. split_and!; vm_compute; reflexivity. Qed.

End StreamFacts.

(** ** WebSocket session *)

Section SessionFacts.
Import JS Session.

Variable JSON_parse : string -> option json.
Variable apiKey : string.
Implicit Types (st : state) (e : event).

Lemma send_keeps st st' (i : nat) (frame : json) :
  send i frame st = Some st' ->
  connected st' = connected st
  /\ wsReconnectAttempts st' = wsReconnectAttempts st
  /\ subscribedCollections st' = subscribedCollections st.
Proof.
  unfold send. destruct (sockets st !! i) as [[]|]; intros [= <-]; done.
Qed.

Lemma onopen_connected st : connected (onopen apiKey st) = connected st.
Proof.
  unfold onopen. simpl. destruct (ws st) as [j|]; [|done].
  destruct (send j _ _) as [st'|] eqn:Hs; [|done].
  apply send_keeps in Hs as (H & _ & _). by rewrite H.
Qed.

Lemma onopen_attempts st : wsReconnectAttempts (onopen apiKey st) = 0.
Proof.
  unfold onopen. simpl. destruct (ws st) as [j|]; [|done].
  destruct (send j _ _) as [st'|] eqn:Hs; [|done].
  apply send_keeps in Hs as (_ & H & _). by rewrite H.
Qed.

Lemma hook_onMessage_attempts (data : json) st st' :
  hook_onMessage data st = Returned st' ->
  wsReconnectAttempts st' = wsReconnectAttempts st.
Proof.
  unfold hook_onMessage. destruct (get data "type") as [ty|]; [|done].
  destruct (is_string ty "connected"); [by intros [= <-]|].
  destruct (is_string ty "update"); [|by intros [= <-]].
  destruct (get data "action"), (get data "collection"), (get data "document");
    try done.
  by intros [= <-].
Qed.

Lemma onmessage_attempts (data : string) st :
  wsReconnectAttempts (onmessage JSON_parse data st) = wsReconnectAttempts st.
Proof.
  unfold onmessage. destruct (JSON_parse data) as [j|]; [|done].
  destruct (hook_onMessage j st) as [st'|] eqn:H; [|done].
  by apply hook_onMessage_attempts in H.
Qed.

(** The hook's callback raises [connected] only for a frame whose [type]
    is the string [connected]. *)
Lemma hook_onMessage_connected (data : json) st st' :
  hook_onMessage data st = Returned st' ->
  connected st = false -> connected st' = true ->
  get data "type" = Returned (Some (JStr "connected")).
Proof.
  unfold hook_onMessage. destruct (get data "type") as [ty|]; [|done].
  destruct (is_string ty "connected") eqn:Hty.
  - intros _ _ _. destruct ty as [[]|]; try done.
    simpl in Hty. by apply bool_decide_eq_true in Hty as ->.
  - destruct (is_string ty "update").
    + destruct (get data "action"), (get data "collection"), (get data "document");
        try done.
      intros [= <-]. simpl. congruence.
    + intros [= <-]. congruence.
Qed.

Lemma onmessage_connected (data : string) st :
  connected st = false -> connected (onmessage JSON_parse data st) = true ->
  exists j, JSON_parse data = Some j
            /\ get j "type" = Returned (Some (JStr "connected")).
Proof.
  unfold onmessage. destruct (JSON_parse data) as [j|]; [|simpl; congruence].
  destruct (hook_onMessage j st) as [st'|] eqn:H; [|simpl; congruence].
  intros H0 H1. exists j. split; [done|]. by eapply hook_onMessage_connected.
Qed.

Lemma subscribe_connected (collection : string) st :
  connected (subscribe collection st) = connected st.
Proof.
  unfold subscribe. destruct (negb (connected st)); [done|].
  case_bool_decide; [done|].
  unfold subscribeToCollection. destruct (ws st) as [i|]; [|done].
  destruct (send i _ st) as [st'|] eqn:Hs; [|done].
  apply send_keeps in Hs as (Hc & _ & _). simpl. by rewrite Hc.
Qed.

Lemma onclose_connected st : connected (onclose st) = connected st.
Proof. unfold onclose. by destruct (bool_decide _). Qed.

(** The hook's callback never lowers [connected]. *)
Lemma hook_onMessage_keeps_connected (data : json) st st' :
  hook_onMessage data st = Returned st' ->
  connected st = true -> connected st' = true.
Proof.
  unfold hook_onMessage. destruct (get data "type") as [ty|]; [|done].
  destruct (is_string ty "connected"); [by intros [= <-]|].
  destruct (is_string ty "update"); [|by intros [= <-]].
  destruct (get data "action"), (get data "collection"), (get data "document");
    try done.
  by intros [= <-].
Qed.

Lemma onmessage_keeps_connected (data : string) st :
  connected st = true -> connected (onmessage JSON_parse data st) = true.
Proof.
  unfold onmessage. destruct (JSON_parse data) as [j|]; [|done].
  destruct (hook_onMessage j st) as [st'|] eqn:H; [|done].
  intros Hc. by apply (hook_onMessage_keeps_connected j st st').
Qed.

(** The open event of a socket: [connected] as before, the counter at zero. *)
Lemma step_Open st (i : nat) st' :
  step JSON_parse apiKey st (Open i) = Some st' ->
  connected st' = connected st /\ wsReconnectAttempts st' = 0.
Proof.
  simpl. destruct (sockets st !! i) as [[]|]; try done.
  intros [= <-]. by rewrite onopen_connected, onopen_attempts.
Qed.

(** The only event that takes [connected] from false to true is the arrival
    of a frame whose [type] is [connected] on an open socket. *)
Lemma step_raises_connected st e st' :
  step JSON_parse apiKey st e = Some st' ->
  connected st = false -> connected st' = true ->
  exists i data j,
    e = Message i data /\ sockets st !! i = Some OPEN
    /\ JSON_parse data = Some j
    /\ get j "type" = Returned (Some (JStr "connected")).
Proof.
  intros Hstep Hoff Hon. destruct e as [| |c|c|i|i data|i|i|id].
  - simpl in Hstep. injection Hstep as <-. simpl in Hon. congruence.
  - simpl in Hstep. injection Hstep as <-. done.
  - simpl in Hstep. injection Hstep as <-. rewrite subscribe_connected in Hon. congruence.
  - simpl in Hstep. injection Hstep as <-. simpl in Hon. congruence.
  - apply step_Open in Hstep as [Hc _]. congruence.
  - simpl in Hstep. destruct (sockets st !! i) as [[]|] eqn:Hi; try done.
    injection Hstep as <-.
    destruct (onmessage_connected data st Hoff Hon) as (j & Hj & Hty).
    by exists i, data, j.
  - simpl in Hstep.
    destruct (sockets st !! i) as [[]|]; try done; by injection Hstep as <-.
  - simpl in Hstep.
    destruct (sockets st !! i) as [[]|]; try done; injection Hstep as <-;
      rewrite onclose_connected in Hon; simpl in Hon; congruence.
  - simpl in Hstep. destruct (bool_decide _); [|done].
    injection Hstep as <-. simpl in Hon. congruence.
Qed.

(** The only events that take [connected] from true to false are the error
    event of a socket and the caller's [disconnect]. *)
Lemma step_lowers_connected st e st' :
  step JSON_parse apiKey st e = Some st' ->
  connected st = true -> connected st' = false ->
  e = Disconnect \/ exists i, e = SocketError i.
Proof.
  intros Hstep Hon Hoff. destruct e as [| |c|c|i|i data|i|i|id].
  - simpl in Hstep. injection Hstep as <-. simpl in Hoff. congruence.
  - by left.
  - simpl in Hstep. injection Hstep as <-. rewrite subscribe_connected in Hoff. congruence.
  - simpl in Hstep. injection Hstep as <-. simpl in Hoff. congruence.
  - apply step_Open in Hstep as [Hc _]. congruence.
  - simpl in Hstep. destruct (sockets st !! i) as [[]|]; try done.
    injection Hstep as <-. rewrite onmessage_keeps_connected in Hoff; done.
  - right. by exists i.
  - simpl in Hstep.
    destruct (sockets st !! i) as [[]|]; try done; injection Hstep as <-;
      rewrite onclose_connected in Hoff; simpl in Hoff; congruence.
  - simpl in Hstep. destruct (bool_decide _); [|done].
    injection Hstep as <-. simpl in Hoff. congruence.
Qed.

(** A session that is not authenticated and ends a run authenticated has
    received a frame whose [type] is [connected] during the run. *)
Lemma run_raises_connected st (es : list event) st' :
  run JSON_parse apiKey st es = Some st' ->
  connected st = false -> connected st' = true ->
  exists i data j,
    Message i data ∈ es
    /\ JSON_parse data = Some j
    /\ get j "type" = Returned (Some (JStr "connected")).
Proof.
  revert st. induction es as [|e es IH]; intros st Hrun Hoff Hon.
  - simpl in Hrun. injection Hrun as <-. congruence.
  - simpl in Hrun. destruct (step JSON_parse apiKey st e) as [st1|] eqn:Hstep; [|done].
    destruct (connected st1) eqn:H1.
    + destruct (step_raises_connected st e st1 Hstep Hoff H1)
        as (i & data & j & -> & _ & Hj & Hty).
      exists i, data, j. split; [apply list_elem_of_here | done].
    + destruct (IH st1 Hrun H1 Hon) as (i & data & j & Hin & Hj & Hty).
      exists i, data, j. split; [by apply list_elem_of_further | done].
Qed.


(** [onclose] while attempts remain, and once they are used up. *)
Lemma onclose_schedules st :
  wsReconnectAttempts st < maxReconnectAttempts ->
  wsReconnectAttempts (onclose st) = wsReconnectAttempts st + 1
  /\ scheduled (onclose st)
     = scheduled st ++ [Z.min (1000 * 2 ^ (wsReconnectAttempts st + 1)) 30000]
  /\ timers (onclose st)
     = timers st ++ [(next_timer st,
                      Z.min (1000 * 2 ^ (wsReconnectAttempts st + 1)) 30000)].
Proof. intros H. unfold onclose. by rewrite bool_decide_eq_true_2. Qed.

Lemma onclose_gives_up st :
  maxReconnectAttempts <= wsReconnectAttempts st -> onclose st = st.
Proof. intros H. unfold onclose. rewrite bool_decide_eq_false_2; [done|lia]. Qed.

End SessionFacts.



(** C5 (amended).  While fewer than five attempts have been made, the close
    handler counts one more attempt and schedules a reconnect after
    [min(1000 * 2^attempts, 30000)] milliseconds, [attempts] being the
    counter after the increment; with five attempts made it does nothing.
    From an authenticated session with the counter at zero, closes that
    follow one another with no open in between are answered after 2 s, 4 s,
    8 s, 16 s and 30 s; the close of the fifth reconnect attempt schedules
    nothing, and from then on no socket event and no timeout can occur.
    (A reconnect that opens before it closes starts the count again: each
    such close is answered after 2 s.) *)
Theorem reconnect_backoff :
  (forall st : Session.state,
      Session.wsReconnectAttempts st < Session.maxReconnectAttempts ->
      let attempts := Session.wsReconnectAttempts st + 1 in
      Session.wsReconnectAttempts (Session.onclose st) = attempts
      /\ Session.scheduled (Session.onclose st)
         = Session.scheduled st ++ [Z.min (1000 * 2 ^ attempts) 30000]
      /\ Session.timers (Session.onclose st)
         = Session.timers st
           ++ [(Session.next_timer st, Z.min (1000 * 2 ^ attempts) 30000)])
  /\ (forall st : Session.state,
         Session.maxReconnectAttempts <= Session.wsReconnectAttempts st ->
         Session.onclose st = st)
  /\ (let ack := JSONText.dq "{'type':'connected'}" in
      let closes :=
        [Session.Connect; Session.Open 0; Session.Message 0 ack;
         Session.Close 0; Session.Timeout 0; Session.Close 1; Session.Timeout 1;
         Session.Close 2; Session.Timeout 2; Session.Close 3; Session.Timeout 3;
         Session.Close 4; Session.Timeout 4; Session.Close 5] in
      exists st,
        Session.run JSONText.parse "key" Session.initial closes = Some st
        /\ Session.scheduled st = [2000; 4000; 8000; 16000; 30000]
        /\ Session.wsReconnectAttempts st = 5
        /\ Session.timers st = []
        /\ (forall i data id,
              Session.step JSONText.parse "key" st (Session.Open i) = None
              /\ Session.step JSONText.parse "key" st (Session.Message i data) = None
              /\ Session.step JSONText.parse "key" st (Session.SocketError i) = None
              /\ Session.step JSONText.parse "key" st (Session.Close i) = None
              /\ Session.step JSONText.parse "key" st (Session.Timeout id) = None))
  /\ (let ack := JSONText.dq "{'type':'connected'}" in
      let reopened :=
        [Session.Connect; Session.Open 0; Session.Message 0 ack;
         Session.Close 0; Session.Timeout 0; Session.Open 1;
         Session.Close 1; Session.Timeout 1; Session.Open 2;
         Session.Close 2] in
      Session.scheduled <$> Session.run JSONText.parse "key" Session.initial reopened
      = Some [2000; 2000; 2000]).
Proof.
  split_and!.
  - intros st H. cbv zeta. by apply onclose_schedules.
  - apply onclose_gives_up.
  - cbv zeta. eexists. split; [vm_compute; reflexivity|].
    split_and!; try reflexivity.
    intros i data id.
    split_and!; try (by destruct i as [|[|[|[|[|[|i]]]]]]).
  - vm_compute. reflexivity.
Qed.

Lemma reconnect_backoff_witness :
  Session.wsReconnectAttempts Session.initial < Session.maxReconnectAttempts
  /\ Session.wsReconnectAttempts (Session.onclose Session.initial) = 1
  /\ Session.scheduled (Session.onclose Session.initial) = [2000].
Proof.
  assert (Session.wsReconnectAttempts Session.initial < Session.maxReconnectAttempts)
    as H by (vm_compute; reflexivity).
  split; [exact H|].
  destruct (proj1 reconnect_backoff Session.initial H) as (Ha & Hs & _).
  split; [exact Ha | exact Hs].
Defined.

(** C5 (as stated, refuted).  The delays of the five reconnects after the
    close of an authenticated session start at two seconds and end at the
    cap, not at one second and sixteen. *)
Lemma reconnect_delays_from_fresh_session :
  let ack := JSONText.dq "{'type':'connected'}" in
  let closes :=
    [Session.Connect; Session.Open 0; Session.Message 0 ack;
     Session.Close 0; Session.Timeout 0; Session.Close 1; Session.Timeout 1;
     Session.Close 2; Session.Timeout 2; Session.Close 3; Session.Timeout 3;
     Session.Close 4; Session.Timeout 4; Session.Close 5] in
  Session.scheduled <$> Session.run JSONText.parse "key" Session.initial closes
    = Some [2000; 4000; 8000; 16000; 30000]
  /\ Session.scheduled <$> Session.run JSONText.parse "key" Session.initial closes
    <> Some [1000; 2000; 4000; 8000; 16000].
Proof. split; vm_compute; [reflexivity | discriminate]. Qed.

(** A caller-initiated disconnect empties the subscription set and lowers
    [connected]. *)
Lemma disconnect_clears_subscriptions (st : Session.state) :
  Session.subscribedCollections (Session.disconnect st) = ∅
  /\ Session.connected (Session.disconnect st) = false
  /\ Session.ws (Session.disconnect st) = None.
Proof.
  unfold Session.disconnect, Session.disconnectWebSocket.
  by destruct (Session.ws st) eqn:E.
Qed.

(** Disconnecting a session that is already disconnected changes nothing. *)
Lemma disconnect_idempotent (st : Session.state) :
  Session.disconnect (Session.disconnect st) = Session.disconnect st.
Proof.
  unfold Session.disconnect, Session.disconnectWebSocket.
  destruct (Session.ws st) eqn:E; simpl; [done|]. by rewrite E.
Qed.

(** C6.  An authenticated session with one subscription is disconnected by
    the caller.  The subscription set is emptied and [this.ws] is dropped,
    but the close event of the socket still reaches the close handler
    installed by [connectWebSocket]: a reconnect is scheduled two seconds
    later, and when that timeout fires a new socket is opened. *)
Theorem disconnect_schedules_reconnect :
  let ack := JSONText.dq "{'type':'connected'}" in
  let session :=
    [Session.Connect; Session.Open 0; Session.Message 0 ack;
     Session.Subscribe "products"] in
  let go es := Session.run JSONText.parse "key" Session.initial es in
  let view st :=
    (Session.ws st, Session.sockets st, Session.timers st, Session.connected st) in
  view <$> go session = Some (Some 0%nat, [Session.OPEN], [], true)
  /\ (Session.subscribedCollections <$> go session) = Some {["products"]}
  /\ view <$> go (session ++ [Session.Disconnect])
     = Some (None, [Session.CLOSING], [], false)
  /\ (Session.subscribedCollections <$> go (session ++ [Session.Disconnect])) = Some ∅
  /\ view <$> go (session ++ [Session.Disconnect; Session.Close 0])
     = Some (None, [Session.CLOSED], [(0%nat, 2000)], false)
  /\ view <$> go (session ++ [Session.Disconnect; Session.Close 0; Session.Timeout 0])
     = Some (Some 1%nat, [Session.CLOSED; Session.CONNECTING], [], false).
Proof. split_and!; vm_compute; reflexivity. Qed.


(** ** Pagination *)

Section PaginationFacts.
Import Components.

Lemma push_range_nil (first last : Z) : last < first -> push_range first last = [].
Proof. intros H. unfold push_range. by rewrite seqZ_nil by lia. Qed.

Lemma push_range_cons (first last : Z) :
  first <= last ->
  push_range first last = PageNumber first :: push_range (first + 1) last.
Proof.
  intros H. unfold push_range. rewrite seqZ_cons by lia.
  replace (Z.succ first) with (first + 1) by lia.
  by replace (Z.pred (last - first + 1)) with (last - (first + 1) + 1) by lia.
Qed.

Lemma page_numbers_push_range (first last : Z) :
  page_numbers (push_range first last) = seqZ first (last - first + 1).
Proof.
  unfold page_numbers, push_range.
  induction (seqZ first (last - first + 1)) as [|n l IH]; [done|].
  simpl. f_equal. exact IH.
Qed.

Lemma seqZ_sorted (m n : Z) : StronglySorted Z.lt (seqZ m n).
Proof.
  remember (Z.to_nat n) as k eqn:Hk. revert m n Hk.
  induction k as [|k IH]; intros m n Hk.
  - rewrite seqZ_nil by lia. constructor.
  - rewrite seqZ_cons by lia. constructor; [apply IH; lia|].
    apply Forall_seqZ. lia.
Qed.

(** The numbers shown, whichever branch built them. *)
Lemma page_numbers_getPageNumbers (currentPage totalPages : Z) :
  page_numbers (getPageNumbers currentPage totalPages) =
  if bool_decide (totalPages <= 7) then seqZ 1 totalPages
  else [1] ++ seqZ (Z.max 2 (currentPage - 1))
                   (Z.min (totalPages - 1) (currentPage + 1)
                    - Z.max 2 (currentPage - 1) + 1)
           ++ [totalPages].
Proof.
  unfold getPageNumbers. case_bool_decide.
  - rewrite page_numbers_push_range. f_equal. lia.
  - unfold page_numbers at 1. rewrite !omap_app.
    fold (page_numbers (push_range (Z.max 2 (currentPage - 1))
                          (Z.min (totalPages - 1) (currentPage + 1)))).
    rewrite page_numbers_push_range.
    by repeat case_bool_decide.
Qed.

Lemma page_numbers_in_range (currentPage totalPages : Z) :
  1 <= currentPage <= totalPages ->
  Forall (fun n => 1 <= n <= totalPages)
         (page_numbers (getPageNumbers currentPage totalPages)).
Proof.
  intros Hc. rewrite page_numbers_getPageNumbers. case_bool_decide as Ht.
  - apply Forall_seqZ. lia.
  - apply Forall_app. split; [repeat constructor; lia|].
    apply Forall_app. split; [apply Forall_seqZ; lia|repeat constructor; lia].
Qed.

(** X1.  [getPageNumbers] never returns more than seven entries, whatever
    the current page and the number of pages. *)
Theorem getPageNumbers_at_most_seven (currentPage totalPages : Z) :
  (length (getPageNumbers currentPage totalPages) <= 7)%nat.
Proof.
  unfold getPageNumbers, push_range. case_bool_decide.
  - rewrite length_fmap, length_seqZ. lia.
  - rewrite !length_app, length_fmap, length_seqZ.
    repeat case_bool_decide; simpl; lia.
Qed.



Lemma follows_push_range (prev first last : Z) (rest : list page_item) :
  first <= last + 1 ->
  follows prev (push_range first last ++ rest) <->
  (first <= last -> first = prev + 1)
  /\ follows (if bool_decide (first <= last) then last else prev) rest.
Proof.
  intros Hle.
  assert (exists k : nat, last + 1 - first = Z.of_nat k) as [k Hk].
  { exists (Z.to_nat (last + 1 - first)). lia. }
  revert prev first Hle Hk. induction k as [|k IH]; intros prev first Hle Hk.
  - rewrite push_range_nil by lia. rewrite bool_decide_eq_false_2 by lia.
    simpl. split; [intros ?; split; [lia|done] | by intros [_ ?]].
  - rewrite push_range_cons by lia. rewrite (bool_decide_eq_true_2 (first <= last)) by lia.
    simpl. rewrite IH by lia. case_bool_decide.
    + split; [intros (-> & H1 & H2); split; [lia|done]|].
      intros (H1 & H2). split; [lia|]. split; [lia|done].
    + assert (first = last) as -> by lia.
      split; [intros (-> & _ & H2); by split|].
      intros (H1 & H2). split; [lia|]. by split; [lia|].
Qed.

(** X3.  In what [Pagination] shows for a current page between 1 and the
    number of pages, each number not preceded by dots is the page after the
    previous number, and dots always stand for at least one page that is
    left out. *)
Theorem getPageNumbers_gaps (currentPage totalPages : Z) :
  1 <= currentPage <= totalPages ->
  follows 0 (getPageNumbers currentPage totalPages).
Proof.
  intros Hc. unfold getPageNumbers. case_bool_decide as Ht.
  - rewrite <- (app_nil_r (push_range 1 totalPages)).
    apply follows_push_range; [lia|]. by split.
  - cbn [app follows]. split; [done|].
    set (a := Z.max 2 (currentPage - 1)).
    set (b := Z.min (totalPages - 1) (currentPage + 1)).
    assert (a <= b) as Hab by lia.
    destruct (bool_decide (currentPage > 3)) eqn:Hl; cbn [app].
    + apply bool_decide_eq_true in Hl.
      rewrite (push_range_cons a b) by done. cbn [app follows].
      split; [lia|].
      apply (follows_push_range a (a + 1) b); [lia|]. split; [lia|].
      destruct (bool_decide (currentPage < totalPages - 2)) eqn:Hr;
        [apply bool_decide_eq_true in Hr | apply bool_decide_eq_false in Hr];
        case_bool_decide; cbn [app follows]; lia.
    + apply bool_decide_eq_false in Hl.
      apply follows_push_range; [lia|]. split; [lia|].
      rewrite bool_decide_eq_true_2 by done.
      destruct (bool_decide (currentPage < totalPages - 2)) eqn:Hr;
        [apply bool_decide_eq_true in Hr | apply bool_decide_eq_false in Hr];
        cbn [app follows]; lia.
Qed.

Lemma getPageNumbers_gaps_witness :
  1 <= 5 <= 12
  /\ getPageNumbers 5 12
     = [PageNumber 1; Ellipsis; PageNumber 4; PageNumber 5; PageNumber 6;
        Ellipsis; PageNumber 12]
  /\ follows 0 (getPageNumbers 5 12).
Proof.
  assert (1 <= 5 <= 12) as H by lia.
  split; [exact H|]. split; [vm_compute; reflexivity|].
  exact (getPageNumbers_gaps 5 12 H).
Defined.

(** X4.  From a rendered [Pagination] whose current page is between 1 and
    the number of pages, every page that [onPageChange] can be called with
    - by the arrows that are not disabled or by a numbered button - is a
    page between 1 and the number of pages. *)
Theorem onPageChange_targets_exist (currentPage totalPages : Z) :
  1 <= currentPage <= totalPages ->
  Forall (fun n => 1 <= n <= totalPages) (onPageChange_targets currentPage totalPages).
Proof.
  intros Hc. unfold onPageChange_targets.
  pose proof (page_numbers_in_range currentPage totalPages Hc) as Hall.
  apply Forall_app. split; [case_bool_decide; repeat constructor; lia|].
  apply Forall_app. split; [exact Hall|].
  case_bool_decide; repeat constructor; lia.
Qed.

Lemma onPageChange_targets_exist_witness :
  1 <= 12 <= 12
  /\ onPageChange_targets 12 12 = [11; 1; 11; 12]
  /\ Forall (fun n => 1 <= n <= 12) (onPageChange_targets 12 12).
Proof.
  assert (1 <= 12 <= 12) as H by lia.
  split; [exact H|]. split; [vm_compute; reflexivity|].
  exact (onPageChange_targets_exist 12 12 H).
Defined.

End PaginationFacts.

(** ** Request executor: headers and error bodies *)

Section ExecutorMoreFacts.
Import JS Executor.

Variable JSON_parse : string -> option json.

(** Reading a header after [{ ...base, ...extra }]. *)
Lemma lookup_spread_headers (base extra : list (string * string)) (k : string) :
  NoDup extra.*1 ->
  lookup_field k (spread_headers base extra) =
  match lookup_field k extra with
  | Some v => Some v
  | None => lookup_field k base
  end.
Proof.
  unfold spread_headers. revert base.
  induction extra as [|[k0 v0] extra IH]; intros base Hnd; simpl; [done|].
  apply NoDup_cons in Hnd as [Hk0 Hnd]. rewrite IH by done.
  rewrite lookup_set_field. destruct (decide (k0 = k)) as [->|Hne].
  - destruct (lookup_field k extra) as [v|] eqn:E; [|done].
    exfalso. apply Hk0. clear -E.
    induction extra as [|[k1 v1] extra IH]; [done|]. simpl in *.
    destruct (decide (k1 = k)) as [->|]; [left|right; by apply IH].
  - done.
Qed.

(** X7.  The headers that [request] gives to [fetch]: the tenant header
    carries the client's tenant whenever that is a non-empty string, even
    over a header of the caller; any other header of the caller is sent as
    the caller gave it, also over the two defaults; and the defaults
    [Content-Type] and [X-API-Key] are sent when the caller names neither. *)
Theorem request_headers (cl : client) (path : string) (options : RequestInit)
  (pf : platform) :
  NoDup (init_headers options).*1 ->
  exists call,
    last (fetches (request_start cl path options pf).2) = Some call
    /\ (forall t, tenant cl = Some t -> t <> "" ->
          lookup_field "X-Tenant-ID" (fetch_headers call) = Some t)
    /\ (forall k v, lookup_field k (init_headers options) = Some v ->
          k <> "X-Tenant-ID" ->
          lookup_field k (fetch_headers call) = Some v)
    /\ (lookup_field "Content-Type" (init_headers options) = None ->
          lookup_field "Content-Type" (fetch_headers call) = Some "application/json")
    /\ (lookup_field "X-API-Key" (init_headers options) = None ->
          lookup_field "X-API-Key" (fetch_headers call) = Some (apiKey cl)).
Proof.
  intros Hnd. unfold request_start. simpl. eexists. split; [by rewrite last_snoc|].
  simpl.
  assert (forall k,
    k <> "X-Tenant-ID" ->
    lookup_field k
      match tenant cl with
      | Some t =>
          if decide (t = "") then
            spread_headers [("Content-Type", "application/json"); ("X-API-Key", apiKey cl)]
                           (init_headers options)
          else set_field "X-Tenant-ID" t
                 (spread_headers
                    [("Content-Type", "application/json"); ("X-API-Key", apiKey cl)]
                    (init_headers options))
      | None =>
          spread_headers [("Content-Type", "application/json"); ("X-API-Key", apiKey cl)]
                         (init_headers options)
      end
    = match lookup_field k (init_headers options) with
      | Some v => Some v
      | None => lookup_field k [("Content-Type", "application/json");
                                ("X-API-Key", apiKey cl)]
      end) as Hother.
  { intros k Hk. destruct (tenant cl) as [t|]; [destruct (decide (t = ""))|];
      rewrite ?lookup_set_field, ?lookup_spread_headers by done;
      try done. by destruct (decide ("X-Tenant-ID" = k)). }
  split_and!.
  - intros t -> Ht. destruct (decide (t = "")); [done|].
    rewrite lookup_set_field. by destruct (decide _).
  - intros k v Hk Hne. rewrite Hother by done. by rewrite Hk.
  - intros Hk. rewrite Hother by done. by rewrite Hk.
  - intros Hk. rewrite Hother by done. by rewrite Hk.
Qed.

Lemma request_headers_witness :
  let cl := mkClient "key" "https://api.aacsearch.com" (Some "acme") 30000 in
  let options := mkInit (Some "GET")
                   [("X-Tenant-ID", "other"); ("Content-Type", "text/plain")] None in
  NoDup (init_headers options).*1
  /\ exists call,
       last (fetches (request_start cl "/api/health" options empty_platform).2)
         = Some call
       /\ lookup_field "X-Tenant-ID" (fetch_headers call) = Some "acme"
       /\ lookup_field "Content-Type" (fetch_headers call) = Some "text/plain".
Proof.
  intros cl options.
  assert (NoDup (init_headers options).*1) as Hnd.
  { apply (bool_decide_unpack _). vm_compute. exact I. }
  split; [exact Hnd|].
  destruct (request_headers cl "/api/health" options empty_platform Hnd)
    as (call & Hlast & Htenant & Hcaller & _).
  exists call. split; [exact Hlast|]. split.
  - apply Htenant; [reflexivity | discriminate].
  - apply Hcaller; [vm_compute; reflexivity | discriminate].
Defined.

(** X8.  For a response outside 200-299 the caller receives an error
    object whose message is never empty or missing and whose status code is
    the status of the response.  When the body is a JSON object, its
    [code] and [details] are passed on, and so is its [message] unless that
    is missing or falsy, in which case the message names the status text. *)
Theorem request_status_error (cl : client) (path : string) (options : RequestInit)
  (pf : platform) (r : Response) :
  ok r = false ->
  exists e,
    (request JSON_parse cl path options (HeadersArrive r) pf).1 = Threw (ErrorObject e)
    /\ truthy (message e) = true
    /\ statusCode e = Some (status r)
    /\ (forall fields, JSON_parse (body_text r) = Some (JObj fields) ->
          code e = lookup_field "code" fields
          /\ details e = lookup_field "details" fields
          /\ message e =
             if truthy (lookup_field "message" fields)
             then lookup_field "message" fields
             else Some (JStr ("API request failed: " +:+ statusText r))).
Proof.
  intros Hok. unfold request, request_start. simpl. rewrite Hok. simpl.
  eexists. split; [reflexivity|].
  unfold status_error, response_json.
  destruct (JSON_parse (body_text r)) as [errorData|]; [|by split_and!].
  destruct errorData as [|b|n|x|items|fields]; try by split_and!.
  simpl. unfold or_else. split_and!.
  - by destruct (truthy (lookup_field "message" fields)) eqn:E.
  - done.
  - by intros ? [= <-].
Qed.

End ExecutorMoreFacts.

Lemma request_status_error_witness :
  let cl := Executor.constructor (Executor.mkConfig "key" None None None) in
  let r := Executor.mkResponse 404 "Not Found"
             (JSONText.dq "{'message':'No such collection','code':'NOT_FOUND'}") in
  Executor.ok r = false
  /\ exists e,
       (Executor.request JSONText.parse cl "/api/v1/admin/collections/x"
          (Executor.mkInit (Some "GET") [] None) (Executor.HeadersArrive r) Executor.empty_platform).1
         = JS.Threw (JS.ErrorObject e)
       /\ JS.truthy (JS.message e) = true
       /\ JS.statusCode e = Some 404.
Proof.
  intros cl r.
  assert (Executor.ok r = false) as Hok by (vm_compute; reflexivity).
  split; [exact Hok|].
  destruct (request_status_error JSONText.parse cl "/api/v1/admin/collections/x"
              (Executor.mkInit (Some "GET") [] None) Executor.empty_platform r Hok)
    as (e & He & Hm & Hs & _).
  exists e. by split_and!.
Defined.


Lemma request_restores_timers_witness :
  let pf := Executor.mkPlatform 3 [(1%nat, 500)] 0 [] [] in
  let cl := Executor.constructor (Executor.mkConfig "key" None None None) in
  Forall (fun t => (t.1 < Executor.next_timer pf)%nat) (Executor.timers pf)
  /\ Executor.timers
       (Executor.request JSONText.parse cl "/api/health"
          (Executor.mkInit (Some "GET") [] None) Executor.DeadlinePasses pf).2
     = [(1%nat, 500)].
Proof.
  intros pf cl.
  assert (Forall (fun t => (t.1 < Executor.next_timer pf)%nat) (Executor.timers pf))
    as Hwf by (repeat constructor; simpl; lia).
  split; [exact Hwf|].
  exact (request_restores_timers JSONText.parse cl "/api/health"
           (Executor.mkInit (Some "GET") [] None) Executor.DeadlinePasses pf Hwf).
Defined.

Lemma split_at_line_feed_witness :
  let first := JSONText.wire ("data: {'type':'token','content':'Hel'}" +:+ String "010" "") in
  let second := JSONText.wire ("data: {'type':'token','content':'lo'}" +:+ String "010" "") in
  let st := Stream.mkLoop Stream.new_TextDecoder "" (Some (JS.JObj [])) [] in
  let options := Stream.mkOptions true true true in
  let separate := Stream.read_loop JSONText.parse options [first; second] Stream.Done st in
  let merged := Stream.read_loop JSONText.parse options [first ++ second] Stream.Done st in
  Stream.decode first (Stream.td st)
    = (JSONText.dq "data: {'type':'token','content':'Hel'}" +:+ String "010" "",
       Stream.mkDecoder 0 0 0 128 191 true)
  /\ Stream.fullAnswer separate.1 = "Hello"
  /\ Stream.observable separate.1 = Stream.observable merged.1
  /\ separate.2 = merged.2.
Proof.
  intros first second st options separate merged.
  assert (Stream.decode first (Stream.td st)
          = (JSONText.dq "data: {'type':'token','content':'Hel'}" +:+ String "010" "",
             Stream.mkDecoder 0 0 0 128 191 true)) as Hd by (vm_compute; reflexivity).
  split; [exact Hd|]. split; [vm_compute; reflexivity|].
  exact (split_at_line_feed JSONText.parse options first second [] Stream.Done st _ _ Hd).
Defined.

(** ** Streaming parser: callbacks and dispatch *)

Section StreamMoreFacts.
Import JS Executor Stream.

Variable JSON_parse : string -> option json.
Variable JSON_stringify : ConversationalSearchParams -> string.

Lemma append_nil_r (a : string) : a +:+ "" = a.
Proof.
  induction a as [|x a IH]; [done|].
  change (String x (a +:+ "") = String x a). by rewrite IH.
Qed.

Lemma concat_text_app (c1 c2 : list value) :
  concat_text (c1 ++ c2) = concat_text c1 +:+ concat_text c2.
Proof.
  induction c1 as [|c c1 IH]; [done|].
  change (toString_value c +:+ concat_text (c1 ++ c2)
          = (toString_value c +:+ concat_text c1) +:+ concat_text c2).
  by rewrite IH, append_assoc.
Qed.

Lemma tokens_between_same options (st st' : loop_state) :
  fullAnswer st' = fullAnswer st -> calls st' = calls st ->
  tokens_between options st st' [].
Proof.
  intros Ha Hc. split; [by rewrite Ha, append_nil_r|].
  rewrite Hc. by destruct (onChunk options); simpl; rewrite app_nil_r.
Qed.

Lemma tokens_between_trans options (st1 st2 st3 : loop_state) (c1 c2 : list value) :
  tokens_between options st1 st2 c1 -> tokens_between options st2 st3 c2 ->
  tokens_between options st1 st3 (c1 ++ c2).
Proof.
  intros [Ha1 Hc1] [Ha2 Hc2]. split.
  - by rewrite Ha2, Ha1, concat_text_app, append_assoc.
  - rewrite Hc2, Hc1, <-(assoc_L (++)). f_equal.
    destruct (onChunk options); [by rewrite fmap_app | done].
Qed.

Lemma process_line_tokens options (line : string) (st st' : loop_state) :
  process_line JSON_parse options line st = Returned st' ->
  exists contents, tokens_between options st st' contents.
Proof.
  unfold process_line.
  destruct (startsWith _ _);
    [|intros [= <-]; exists []; by apply tokens_between_same].
  destruct (JSON_parse _) as [data|]; [|done].
  destruct (get data "type") as [ty|]; [|done].
  destruct (is_string ty "token").
  - destruct (get data "content") as [content|]; [|done].
    intros [= <-]. exists [content]. split.
    + unfold call_if. destruct (onChunk options); simpl;
        change (concat_text [content]) with (toString_value content +:+ "");
        by rewrite append_nil_r.
    + unfold call_if. destruct (onChunk options); simpl; [done | by rewrite app_nil_r].
  - destruct (is_string ty "result").
    + destruct (get data "data") as [payload|]; [|done].
      intros [= <-]. exists []. by apply tokens_between_same.
    + intros [= <-]. exists []. by apply tokens_between_same.
Qed.

Lemma process_lines_tokens options (lines : list string) (st st' : loop_state)
  (r : option thrown) :
  process_lines JSON_parse options lines st = (st', r) ->
  exists contents, tokens_between options st st' contents.
Proof.
  revert st. induction lines as [|line lines IH]; intros st; simpl.
  - intros [= <- <-]. exists []. by apply tokens_between_same.
  - destruct (process_line JSON_parse options line st) as [st1|t] eqn:Hline.
    + intros Hrest. apply process_line_tokens in Hline as [c1 H1].
      apply IH in Hrest as [c2 H2]. exists (c1 ++ c2). by eapply tokens_between_trans.
    + intros [= <- <-]. exists []. by apply tokens_between_same.
Qed.

Lemma process_chunk_tokens options (value : list Byte.byte) (st st' : loop_state)
  (r : option thrown) :
  process_chunk JSON_parse options value st = (st', r) ->
  exists contents, tokens_between options st st' contents.
Proof.
  unfold process_chunk. destruct (decode value (td st)) as [chunk d].
  intros H. apply process_lines_tokens in H as [c H]. exists c.
  destruct H as [Ha Hc]. by split.
Qed.

(** Between the start of the read loop and its end, by [done] or by a
    throw, the answer has grown by the text of the token contents that
    were handed to [onChunk]. *)
Lemma read_loop_tokens options (reads : list (list Byte.byte)) (fin : stream_end)
  (st st' : loop_state) (r : option thrown) :
  read_loop JSON_parse options reads fin st = (st', r) ->
  exists contents, tokens_between options st st' contents.
Proof.
  revert st. induction reads as [|value reads IH]; intros st; simpl.
  - destruct fin; intros [= <- <-]; exists []; by apply tokens_between_same.
  - destruct (process_chunk JSON_parse options value st) as [st1 [t|]] eqn:Hchunk.
    + intros [= <- <-]. by eapply process_chunk_tokens.
    + intros Hrest. apply process_chunk_tokens in Hchunk as [c1 H1].
      apply IH in Hrest as [c2 H2]. exists (c1 ++ c2). by eapply tokens_between_trans.
Qed.

Lemma call_if_tokens (supplied : bool) (c : sink_call) (st : loop_state) :
  fullAnswer (call_if supplied c st) = fullAnswer st
  /\ result (call_if supplied c st) = result st
  /\ calls (call_if supplied c st) = calls st ++ (if supplied then [c] else []).
Proof. destruct supplied; simpl; [done | by rewrite app_nil_r]. Qed.

Lemma final_result_answer (st : loop_state) (r : json) :
  final_result st = Returned r ->
  exists cid src sq,
    r = JObj [("conversation_id", cid); ("answer", JStr (fullAnswer st));
              ("sources", src); ("suggested_questions", sq)].
Proof.
  unfold final_result.
  destruct (result_field _ "conversation_id" _) as [cid|]; [|done].
  destruct (result_field _ "sources" _) as [src|]; [|done].
  destruct (result_field _ "suggested_questions" _) as [sq|]; [|done].
  intros [= <-]. by exists cid, src, sq.
Qed.


(** X10.  A streamed call before its body is read.  The call issues one
    [fetch], a POST to the stream address, with no abort signal, and arms
    no timer: no deadline applies to it.  When that [fetch] rejects, or
    resolves without a body, the call throws and none of the callbacks is
    called, [onError] included. *)
Theorem stream_without_deadline (cl : client) (params : ConversationalSearchParams)
  (options : StreamingOptions) (env : network) (pf : platform) :
  params.(streaming) = Some true ->
  let '(outcome, called, pf') :=
    conversationalSearch JSON_parse JSON_stringify cl params (Some options) env pf in
  timers pf' = timers pf
  /\ next_controller pf' = next_controller pf
  /\ aborted pf' = aborted pf
  /\ (exists call, fetches pf' = fetches pf ++ [call]
                   /\ fetch_url call = endpoint cl +:+ "/api/v1/search/conversational/stream"
                   /\ fetch_method call = Some "POST"
                   /\ fetch_signal call = None)
  /\ match stream env with
     | StreamFails msg => outcome = Threw (Exception "TypeError" msg) /\ called = []
     | StreamNoBody =>
         outcome = Threw (Exception "Error" "Streaming not supported") /\ called = []
     | StreamBody _ _ => True
     end.
Proof.
  intros Hs. unfold conversationalSearch. rewrite Hs.
  unfold streamConversationalSearch.
  destruct env as [h [msg| |reads fin]].
  - split_and!; try done. by eexists.
  - split_and!; try done. by eexists.
  - simpl.
    destruct (read_loop JSON_parse options reads fin _) as [st [t|]].
    + split_and!; try done. by eexists.
    + destruct (final_result _); (split_and!; try done; by eexists).
Qed.

(** The calls a streamed call makes when all three callbacks are supplied,
    as the conversation hook supplies them. *)
Lemma streamed_calls (cl : client) (params : ConversationalSearchParams)
  (reads : list (list Byte.byte)) (fin : stream_end) (pf : platform)
  (outcome : completion json) (called : list sink_call) (pf' : platform) :
  streamConversationalSearch JSON_parse JSON_stringify cl params
    (mkOptions true true true) (StreamBody reads fin) pf = (outcome, called, pf') ->
  exists (contents : list value) (completed : bool),
    match outcome with
    | Returned r =>
        called = (Chunk <$> contents) ++ [Complete]
        /\ exists cid src sq,
             r = JObj [("conversation_id", cid); ("answer", JStr (concat_text contents));
                       ("sources", src); ("suggested_questions", sq)]
    | Threw t =>
        called = (Chunk <$> contents) ++ (if completed then [Complete] else []) ++ [Error t]
    end.
Proof.
  unfold streamConversationalSearch.
  destruct (read_loop JSON_parse (mkOptions true true true) reads fin
              (mkLoop new_TextDecoder "" (Some (JObj [])) [])) as [st [t|]] eqn:Hloop;
    apply read_loop_tokens in Hloop as [contents [Ha Hc]]; simpl in Ha, Hc.
  - intros [= <- <- <-]. exists contents, false. simpl. by rewrite Hc.
  - destruct (final_result (call_if (onComplete (mkOptions true true true)) Complete st))
      as [r|t] eqn:Hfin; intros [= <- <- <-]; exists contents, true.
    + split; [simpl; by rewrite Hc|].
      apply final_result_answer in Hfin as (cid & src & sq & ->).
      exists cid, src, sq. simpl. by rewrite Ha.
    + simpl. by rewrite Hc, <-(assoc_L (++)).
Qed.

End StreamMoreFacts.

Lemma stream_without_deadline_witness :
  let cl := Executor.constructor (Executor.mkConfig "key" None None None) in
  let params := Stream.mkParams None "hello" "docs" None (Some true) in
  let outcome :=
    Stream.conversationalSearch JSONText.parse (fun _ => "{}") cl params
      (Some (Stream.mkOptions true true true))
      (Stream.mkNetwork Executor.DeadlinePasses (Stream.StreamFails "Failed to fetch"))
      Executor.empty_platform in
  Stream.streaming params = Some true
  /\ outcome.1 = (JS.Threw (JS.Exception "TypeError" "Failed to fetch"), [])
  /\ Executor.timers outcome.2 = [].
Proof.
  intros cl params outcome.
  assert (Stream.streaming params = Some true) as Hs by reflexivity.
  split; [exact Hs|].
  pose proof (stream_without_deadline JSONText.parse (fun _ => "{}") cl params
                (Stream.mkOptions true true true)
                (Stream.mkNetwork Executor.DeadlinePasses
                   (Stream.StreamFails "Failed to fetch"))
                Executor.empty_platform Hs) as H.
  fold outcome in H. destruct outcome as [[o c] pf'].
  destruct H as (Ht & _ & _ & _ & Ho & Hc). simpl. by rewrite Ht, Ho, Hc.
Defined.

(** ** Conversational search hook *)

Section ConversationFacts.
Import JS Conversation.

Variable JSON_parse : string -> option json.
Variable JSON_stringify : Stream.ConversationalSearchParams -> string.
Variable client : Executor.client.
Variable options : UseConversationalSearchOptions.
Implicit Types (st : state).

Lemma callbacks_cons (c : Stream.sink_call) (called : list Stream.sink_call) st :
  callbacks options (c :: called) st = callbacks options called (callback options c st).
Proof. done. Qed.

Lemma callbacks_app (l1 l2 : list Stream.sink_call) st :
  callbacks options (l1 ++ l2) st = callbacks options l2 (callbacks options l1 st).
Proof. unfold callbacks. by rewrite foldl_app. Qed.

Lemma streaming_updater_assistant (base : list Message) (m : Message) (text : string) :
  role m = assistant ->
  streaming_updater text (base ++ [m])
  = base ++ [mkMessage assistant (Some (JStr text)) (sources m)].
Proof.
  intros H. unfold streaming_updater. by rewrite last_snoc, H, removelast_last.
Qed.

Lemma streaming_updater_user (base : list Message) (m : Message) (text : string) :
  role m = user ->
  streaming_updater text (base ++ [m])
  = (base ++ [m]) ++ [mkMessage assistant (Some (JStr text)) None].
Proof. intros H. unfold streaming_updater. by rewrite last_snoc, H. Qed.

Lemma callback_Chunk (chunk : value) st :
  let st' := callback options (Stream.Chunk chunk) st in
  let text := streamingContentRef st +:+ toString_value chunk in
  messages st' = streaming_updater text (messages st)
  /\ streamingContentRef st' = text
  /\ isLoading st' = isLoading st /\ isStreaming st' = isStreaming st
  /\ error st' = error st /\ conversationId st' = conversationId st
  /\ notified st' = notified st ++ (if onChunk options then [OnChunk chunk] else []).
Proof.
  unfold callback, notify. destruct (onChunk options); simpl;
    rewrite ?app_nil_r; done.
Qed.

Lemma callback_Complete st :
  let st' := callback options Stream.Complete st in
  messages st' = messages st
  /\ streamingContentRef st' = streamingContentRef st
  /\ isLoading st' = isLoading st /\ isStreaming st' = false
  /\ error st' = error st /\ conversationId st' = conversationId st
  /\ notified st' = notified st ++ (if onComplete options then [OnComplete] else []).
Proof.
  unfold callback, notify. destruct (onComplete options); simpl;
    rewrite ?app_nil_r; done.
Qed.

Lemma callback_Error (err : thrown) st :
  let st' := callback options (Stream.Error err) st in
  messages st' = messages st
  /\ streamingContentRef st' = streamingContentRef st
  /\ isLoading st' = isLoading st /\ isStreaming st' = isStreaming st
  /\ error st' = Some (onError_searchError err)
  /\ conversationId st' = conversationId st
  /\ notified st' = notified st
                    ++ (if onError options then [OnError (onError_searchError err)] else []).
Proof.
  unfold callback, notify. destruct (onError options); simpl;
    rewrite ?app_nil_r; done.
Qed.

Lemma sendMessage_catch_fields (err : thrown) st :
  let st' := sendMessage_catch options err st in
  messages st' = messages st
  /\ streamingContentRef st' = streamingContentRef st
  /\ isLoading st' = isLoading st /\ isStreaming st' = isStreaming st
  /\ error st' = Some (catch_searchError err)
  /\ conversationId st' = conversationId st
  /\ notified st' = notified st
                    ++ (if onError options then [OnError (catch_searchError err)] else []).
Proof.
  unfold sendMessage_catch, notify. destruct (onError options); simpl;
    rewrite ?app_nil_r; done.
Qed.

(** Chunks that arrive while the last message is the assistant's message
    holding the text streamed so far. *)
Lemma callbacks_chunks_assistant (contents : list value) st (base : list Message) :
  messages st = base ++ [mkMessage assistant (Some (JStr (streamingContentRef st))) None] ->
  let st' := callbacks options (Stream.Chunk <$> contents) st in
  let text := streamingContentRef st +:+ Stream.concat_text contents in
  messages st' = base ++ [mkMessage assistant (Some (JStr text)) None]
  /\ streamingContentRef st' = text
  /\ isLoading st' = isLoading st /\ isStreaming st' = isStreaming st
  /\ error st' = error st /\ conversationId st' = conversationId st
  /\ notified st' = notified st ++ (if onChunk options then OnChunk <$> contents else []).
Proof.
  revert st. induction contents as [|c contents IH]; intros st Hm; cbv zeta.
  - change (callbacks options (Stream.Chunk <$> []) st) with st.
    change (Stream.concat_text []) with "". rewrite append_nil_r.
    split_and!; try done. by destruct (onChunk options); rewrite app_nil_r.
  - rewrite fmap_cons, callbacks_cons.
    pose proof (callback_Chunk c st) as H. cbv zeta in H.
    remember (callback options (Stream.Chunk c) st) as st1 eqn:E. clear E.
    destruct H as (Hm1 & Hr1 & Hl1 & Hs1 & He1 & Hc1 & Hn1).
    rewrite Hm, streaming_updater_assistant in Hm1 by done. simpl in Hm1.
    rewrite <-Hr1 in Hm1.
    destruct (IH _ Hm1) as (Hm2 & Hr2 & Hl2 & Hs2 & He2 & Hc2 & Hn2).
    change (Stream.concat_text (c :: contents))
      with (toString_value c +:+ Stream.concat_text contents).
    rewrite <-append_assoc, <-Hr1.
    split_and!; try congruence.
    rewrite Hn2, Hn1, <-(assoc_L (++)). by destruct (onChunk options).
Qed.

(** Chunks that arrive after [sendMessage] has pushed the user's message
    and emptied the streamed text. *)
Lemma callbacks_chunks_start (contents : list value) st (base : list Message)
  (m : Message) :
  messages st = base ++ [m] -> role m = user -> streamingContentRef st = "" ->
  let st' := callbacks options (Stream.Chunk <$> contents) st in
  messages st'
  = base ++ [m]
    ++ match contents with
       | [] => []
       | _ => [mkMessage assistant (Some (JStr (Stream.concat_text contents))) None]
       end
  /\ streamingContentRef st' = Stream.concat_text contents
  /\ isLoading st' = isLoading st /\ isStreaming st' = isStreaming st
  /\ error st' = error st /\ conversationId st' = conversationId st
  /\ notified st' = notified st ++ (if onChunk options then OnChunk <$> contents else []).
Proof.
  intros Hm Hrole Href. destruct contents as [|c contents]; cbv zeta.
  - change (callbacks options (Stream.Chunk <$> []) st) with st.
    split_and!; try done. by destruct (onChunk options); rewrite app_nil_r.
  - rewrite fmap_cons, callbacks_cons.
    pose proof (callback_Chunk c st) as H. cbv zeta in H.
    remember (callback options (Stream.Chunk c) st) as st1 eqn:E. clear E.
    destruct H as (Hm1 & Hr1 & Hl1 & Hs1 & He1 & Hc1 & Hn1).
    rewrite Hm, streaming_updater_user in Hm1 by done.
    rewrite <-Hr1 in Hm1.
    destruct (callbacks_chunks_assistant contents _ _ Hm1)
      as (Hm2 & Hr2 & Hl2 & Hs2 & He2 & Hc2 & Hn2).
    rewrite Href in Hr1. change ("" +:+ toString_value c) with (toString_value c) in Hr1.
    rewrite Hr1 in Hm2, Hr2.
    change (Stream.concat_text (c :: contents))
      with (toString_value c +:+ Stream.concat_text contents).
    split_and!; try congruence.
    + by rewrite Hm2, <-(assoc_L (++)).
    + rewrite Hn2, Hn1, <-(assoc_L (++)). by destruct (onChunk options).
Qed.

Lemma sendMessage_start_streaming (message : string) st :
  streaming_on options = true ->
  let st0 := sendMessage_start options message st in
  messages st0 = messages st ++ [mkMessage user (Some (JStr message)) None]
  /\ streamingContentRef st0 = ""
  /\ isLoading st0 = true /\ isStreaming st0 = true
  /\ error st0 = None /\ conversationId st0 = conversationId st
  /\ notified st0 = notified st.
Proof. intros H. unfold sendMessage_start. by rewrite !H. Qed.

Lemma sendMessage_settled_Threw (t : thrown) st :
  let st' := sendMessage_settled options (Threw t) st in
  messages st' = messages st
  /\ isLoading st' = false /\ isStreaming st' = false
  /\ error st' = Some (catch_searchError t)
  /\ conversationId st' = conversationId st
  /\ notified st' = notified st
                    ++ (if onError options then [OnError (catch_searchError t)] else []).
Proof.
  cbv zeta. unfold sendMessage_settled.
  destruct (sendMessage_catch_fields t st) as (Hm & _ & _ & _ & He & Hc & Hn).
  by split_and!.
Qed.

Lemma sendMessage_settled_streamed (fields : list (string * json)) st :
  streaming_on options = true ->
  let st' := sendMessage_settled options (Returned (JObj fields)) st in
  messages st' = messages st
  /\ isLoading st' = false /\ isStreaming st' = false
  /\ error st' = error st
  /\ conversationId st' = lookup_field "conversation_id" fields
  /\ notified st' = notified st.
Proof. intros H. cbv zeta. unfold sendMessage_settled. by rewrite H. Qed.


Lemma params_of_start (message : string) st :
  params_of options message (sendMessage_start options message st)
  = params_of options message st.
Proof. unfold params_of, sendMessage_start. by destruct (streaming_on options). Qed.

Lemma sendMessage_start_plain (message : string) st :
  streaming_on options = false ->
  let st0 := sendMessage_start options message st in
  messages st0 = messages st ++ [mkMessage user (Some (JStr message)) None]
  /\ streamingContentRef st0 = streamingContentRef st
  /\ isLoading st0 = true /\ isStreaming st0 = false
  /\ error st0 = None /\ conversationId st0 = conversationId st
  /\ notified st0 = notified st.
Proof. intros H. unfold sendMessage_start. by rewrite !H. Qed.

(** Once [result.answer] has been read, [result.sources?.hits || []] does
    not throw. *)
Lemma sources_hits_returns (r : json) :
  r <> JNull -> exists hits, sources_hits r = Returned hits.
Proof.
  intros Hr. unfold sources_hits. destruct r as [| | | | |fields]; try done; simpl;
    try by eexists.
  destruct (lookup_field "sources" fields) as [[]|]; simpl; by eexists.
Qed.

(** [sendMessage] from the moment a call without streaming settles. *)
Lemma sendMessage_settled_plain (outcome : completion json) st :
  streaming_on options = false ->
  let st' := sendMessage_settled options outcome st in
  let failed (t : thrown) :=
    messages st' = messages st
    /\ conversationId st' = conversationId st
    /\ error st' = Some (catch_searchError t)
    /\ notified st'
       = notified st ++ (if onError options then [OnError (catch_searchError t)] else []) in
  isLoading st' = false /\ isStreaming st' = false
  /\ streamingContentRef st' = streamingContentRef st
  /\ match outcome with
     | Returned JNull => failed (Exception "TypeError" "Cannot read properties of null")
     | Returned r =>
         exists answer hits,
           get r "answer" = Returned answer
           /\ sources_hits r = Returned hits
           /\ messages st' = messages st ++ [mkMessage assistant answer hits]
           /\ get r "conversation_id" = Returned (conversationId st')
           /\ error st' = error st
           /\ notified st' = notified st
     | Threw t => failed t
     end.
Proof.
  intros Hoff. cbv zeta. destruct outcome as [r|t].
  - assert (r = JNull \/ r <> JNull) as [->|Hr] by (destruct r; auto).
    + unfold sendMessage_settled. rewrite Hoff. cbn [negb get].
      destruct (sendMessage_catch_fields
                  (Exception "TypeError" "Cannot read properties of null") st)
        as (Hm & Hr & _ & _ & He & Hc & Hn).
      by split_and!.
    + destruct (sources_hits_returns r Hr) as [hits Hh].
      assert (exists answer cid, get r "answer" = Returned answer
                                 /\ get r "conversation_id" = Returned cid)
        as (answer & cid & Ha & Hcid) by (destruct r; try done; by eexists _, _).
      assert (sendMessage_settled options (Returned r) st
              = setIsStreaming false (setIsLoading false
                  (setConversationId cid
                     (setMessages (messages st ++ [mkMessage assistant answer hits]) st))))
        as ->.
      { unfold sendMessage_settled. by rewrite Hoff, Ha, Hh, Hcid. }
      split_and!; try done.
      assert (exists answer' hits',
                get r "answer" = Returned answer'
                /\ sources_hits r = Returned hits'
                /\ messages st ++ [mkMessage assistant answer hits]
                   = messages st ++ [mkMessage assistant answer' hits']
                /\ get r "conversation_id" = Returned cid
                /\ error st = error st /\ notified st = notified st) as H
        by (by exists answer, hits).
      by destruct r.
  - destruct (sendMessage_settled_Threw t st) as (Hm & Hl & Hs' & He & Hc & Hn).
    destruct (sendMessage_catch_fields t st) as (_ & Hr & _).
    by split_and!.
Qed.


End ConversationFacts.




(** ** WebSocket session: invariants of every run *)

Section SessionMoreFacts.
Import JS Session.

Variable JSON_parse : string -> option json.
Variable apiKey : string.
Implicit Types (st : state) (e : event).

Lemma send_keeps_timers st st' (i : nat) (frame : json) :
  send i frame st = Some st' ->
  scheduled st' = scheduled st /\ timers st' = timers st
  /\ ws st' = ws st /\ sockets st' = sockets st.
Proof.
  unfold send. destruct (sockets st !! i) as [[]|]; intros [= <-]; done.
Qed.

Lemma onopen_timers st :
  scheduled (onopen apiKey st) = scheduled st /\ timers (onopen apiKey st) = timers st.
Proof.
  unfold onopen. simpl. destruct (ws st) as [j|]; [|done].
  destruct (send j _ _) as [st'|] eqn:Hs; [|done].
  by apply send_keeps_timers in Hs as (-> & -> & _).
Qed.

Lemma hook_onMessage_timers (data : json) st st' :
  hook_onMessage data st = Returned st' ->
  scheduled st' = scheduled st /\ timers st' = timers st.
Proof.
  unfold hook_onMessage. destruct (get data "type") as [ty|]; [|done].
  destruct (is_string ty "connected"); [by intros [= <-]|].
  destruct (is_string ty "update"); [|by intros [= <-]].
  destruct (get data "action"), (get data "collection"), (get data "document");
    try done.
  by intros [= <-].
Qed.

Lemma onmessage_timers (data : string) st :
  scheduled (onmessage JSON_parse data st) = scheduled st
  /\ timers (onmessage JSON_parse data st) = timers st.
Proof.
  unfold onmessage. destruct (JSON_parse data) as [j|]; [|done].
  destruct (hook_onMessage j st) as [st'|] eqn:H; [|done].
  by apply hook_onMessage_timers in H.
Qed.

Lemma subscribe_timers (collection : string) st :
  wsReconnectAttempts (subscribe collection st) = wsReconnectAttempts st
  /\ scheduled (subscribe collection st) = scheduled st
  /\ timers (subscribe collection st) = timers st.
Proof.
  unfold subscribe. destruct (negb (connected st)); [done|].
  case_bool_decide; [done|].
  unfold subscribeToCollection. destruct (ws st) as [i|]; [|done].
  destruct (send i _ st) as [st'|] eqn:Hs; [|done].
  pose proof Hs as (_ & Ha & _)%send_keeps.
  apply send_keeps_timers in Hs as (Hsch & Ht & _). simpl. by rewrite Ha, Hsch, Ht.
Qed.

Lemma reconnect_delay_values (attempts : Z) :
  1 <= attempts <= 5 ->
  reconnect_delay attempts ∈ [2000; 4000; 8000; 16000; 30000].
Proof.
  intros H.
  assert (attempts = 1 \/ attempts = 2 \/ attempts = 3 \/ attempts = 4 \/ attempts = 5)
    as [->|[->|[->|[->| ->]]]] by lia;
    apply (bool_decide_unpack _); vm_compute; exact I.
Qed.

(** One event keeps the counter between 0 and 5 and the delays of the
    reconnects, scheduled and pending, among the five back-off values. *)
Lemma step_bounds st e st' :
  step JSON_parse apiKey st e = Some st' ->
  0 <= wsReconnectAttempts st <= maxReconnectAttempts
  /\ Forall (fun d => d ∈ [2000; 4000; 8000; 16000; 30000]) (scheduled st)
  /\ Forall (fun t => t.2 ∈ [2000; 4000; 8000; 16000; 30000]) (timers st) ->
  0 <= wsReconnectAttempts st' <= maxReconnectAttempts
  /\ Forall (fun d => d ∈ [2000; 4000; 8000; 16000; 30000]) (scheduled st')
  /\ Forall (fun t => t.2 ∈ [2000; 4000; 8000; 16000; 30000]) (timers st').
Proof.
  intros Hstep (Ha & Hs & Ht). unfold maxReconnectAttempts in *.
  destruct e as [| |c|c|i|i data|i|i|id]; simpl in Hstep.
  - by injection Hstep as <-.
  - injection Hstep as <-. unfold disconnect, disconnectWebSocket.
    destruct (ws st) as [i|]; [|done]. unfold close.
    by destruct (sockets st !! i) as [[]|].
  - injection Hstep as <-.
    by destruct (subscribe_timers c st) as (-> & -> & ->).
  - by injection Hstep as <-.
  - destruct (sockets st !! i) as [[]|]; try done. injection Hstep as <-.
    rewrite onopen_attempts.
    destruct (onopen_timers (set_sockets (<[i:=OPEN]> (sockets st)) st)) as [-> ->].
    split; [lia|done].
  - destruct (sockets st !! i) as [[]|]; try done. injection Hstep as <-.
    rewrite onmessage_attempts.
    by destruct (onmessage_timers data st) as [-> ->].
  - destruct (sockets st !! i) as [[]|]; try done; by injection Hstep as <-.
  - assert (forall st0, wsReconnectAttempts st0 = wsReconnectAttempts st ->
                        scheduled st0 = scheduled st -> timers st0 = timers st ->
              0 <= wsReconnectAttempts (onclose st0) <= 5
              /\ Forall (fun d => d ∈ [2000; 4000; 8000; 16000; 30000])
                        (scheduled (onclose st0))
              /\ Forall (fun t => t.2 ∈ [2000; 4000; 8000; 16000; 30000])
                        (timers (onclose st0))) as Hclose.
    { intros st0 Ha0 Hs0 Ht0. unfold onclose, maxReconnectAttempts.
      case_bool_decide as Hlt; simpl; rewrite ?Ha0, ?Hs0, ?Ht0; [|done].
      assert (reconnect_delay (wsReconnectAttempts st + 1)
              ∈ [2000; 4000; 8000; 16000; 30000])
        by (apply reconnect_delay_values; lia).
      split; [lia|]. split; apply Forall_app; (split; [done|]); by constructor. }
    destruct (sockets st !! i) as [[]|]; try done; injection Hstep as <-;
      by apply Hclose.
  - case_bool_decide; [|done]. injection Hstep as <-. simpl.
    split; [done|]. split; [done|].
    rewrite Forall_forall in Ht |- *.
    intros x [_ Hx]%list_elem_of_filter. by apply Ht.
Qed.

(** X13.  Over every sequence of events from the initial session, the
    reconnect counter stays between 0 and 5, and every reconnect that was
    ever scheduled, and every one still pending, has one of the delays
    2 s, 4 s, 8 s, 16 s or 30 s. *)
Theorem session_bounds (es : list event) st :
  run JSON_parse apiKey initial es = Some st ->
  0 <= wsReconnectAttempts st <= maxReconnectAttempts
  /\ Forall (fun d => d ∈ [2000; 4000; 8000; 16000; 30000]) (scheduled st)
  /\ Forall (fun t => t.2 ∈ [2000; 4000; 8000; 16000; 30000]) (timers st).
Proof.
  assert (forall st0,
            0 <= wsReconnectAttempts st0 <= maxReconnectAttempts
            /\ Forall (fun d => d ∈ [2000; 4000; 8000; 16000; 30000]) (scheduled st0)
            /\ Forall (fun t => t.2 ∈ [2000; 4000; 8000; 16000; 30000]) (timers st0) ->
            run JSON_parse apiKey st0 es = Some st ->
            0 <= wsReconnectAttempts st <= maxReconnectAttempts
            /\ Forall (fun d => d ∈ [2000; 4000; 8000; 16000; 30000]) (scheduled st)
            /\ Forall (fun t => t.2 ∈ [2000; 4000; 8000; 16000; 30000]) (timers st))
    as Hrun.
  { induction es as [|e es IH]; intros st0 H0; simpl.
    - by intros [= <-].
    - destruct (step JSON_parse apiKey st0 e) as [st1|] eqn:Hstep; [|done].
      apply IH. by eapply step_bounds. }
  apply Hrun. unfold maxReconnectAttempts. simpl. split; [lia|]. by split.
Qed.

Lemma subscribe_sent_once (collection : string) st :
  sent (subscribe collection (subscribe collection st)) = sent (subscribe collection st).
Proof.
  destruct (connected st) eqn:Hc.
  - destruct (decide (collection ∈ subscribedCollections st)) as [Hin|Hin].
    + assert (subscribe collection st = st) as E.
      { unfold subscribe. rewrite Hc. simpl. by rewrite bool_decide_eq_true_2. }
      by rewrite !E.
    + destruct (subscribeToCollection collection st) as [st'|] eqn:Hs.
      * assert (subscribe collection st
                = set_subscribed ({[collection]} ∪ subscribedCollections st') st') as E.
        { unfold subscribe. rewrite Hc. simpl.
          rewrite bool_decide_eq_false_2 by done. by rewrite Hs. }
        rewrite E. unfold subscribeToCollection in Hs.
        destruct (ws st) as [i|]; [|done].
        apply send_keeps in Hs as (Hc' & _ & _).
        unfold subscribe. simpl. rewrite Hc', Hc. simpl.
        rewrite bool_decide_eq_true_2; [done|].
        apply elem_of_union_l. by apply elem_of_singleton.
      * assert (subscribe collection st = report "subscribeToCollection threw" st) as E.
        { unfold subscribe. rewrite Hc. simpl.
          rewrite bool_decide_eq_false_2 by done. by rewrite Hs. }
        rewrite E. unfold subscribe. simpl. rewrite Hc. simpl.
        rewrite bool_decide_eq_false_2 by done.
        unfold subscribeToCollection in *. simpl.
        destruct (ws st) as [i|]; [|done].
        unfold send in *. simpl. by destruct (sockets st !! i) as [[]|].
  - assert (subscribe collection st
            = report "WebSocket not connected. Call connect() first." st) as E
      by (unfold subscribe; by rewrite Hc).
    rewrite E. unfold subscribe. simpl. by rewrite Hc.
Qed.

(** X14.  Subscriptions of the hook.  On an authenticated session whose
    socket is open, the first [subscribe] to a collection sends one
    [subscribe] frame for it on [this.ws] and records the collection; for
    every session, repeating a [subscribe] sends nothing more.
    [unsubscribe] only forgets the collection: it sends nothing, so the
    server is not told, and a later [subscribe] sends the frame again. *)
Theorem subscribe_frames (collection : string) :
  (forall st i,
      connected st = true -> ws st = Some i -> sockets st !! i = Some OPEN ->
      collection ∉ subscribedCollections st ->
      sent (subscribe collection st)
      = sent st ++ [(i, JObj [("type", JStr "subscribe");
                              ("collection", JStr collection)])]
      /\ collection ∈ subscribedCollections (subscribe collection st))
  /\ (forall st,
        sent (subscribe collection (subscribe collection st))
        = sent (subscribe collection st))
  /\ (forall st,
        sent (unsubscribe collection st) = sent st
        /\ collection ∉ subscribedCollections (unsubscribe collection st))
  /\ (forall st i,
        connected st = true -> ws st = Some i -> sockets st !! i = Some OPEN ->
        sent (subscribe collection (unsubscribe collection st))
        = sent st ++ [(i, JObj [("type", JStr "subscribe");
                                ("collection", JStr collection)])]).
Proof.
  assert (forall st i,
            connected st = true -> ws st = Some i -> sockets st !! i = Some OPEN ->
            collection ∉ subscribedCollections st ->
            sent (subscribe collection st)
            = sent st ++ [(i, JObj [("type", JStr "subscribe");
                                    ("collection", JStr collection)])]
            /\ collection ∈ subscribedCollections (subscribe collection st)) as Hfirst.
  { intros st i Hc Hws Hopen Hnew. unfold subscribe, subscribeToCollection, send.
    rewrite Hc, Hws, Hopen. simpl. rewrite bool_decide_eq_false_2 by done.
    simpl. split; [done|]. apply elem_of_union_l. by apply elem_of_singleton. }
  assert (forall st, collection ∉ subscribedCollections (unsubscribe collection st))
    as Hgone.
  { intros st. simpl. intros [_ H]%elem_of_difference.
    apply H. by apply elem_of_singleton. }
  split_and!.
  - exact Hfirst.
  - apply subscribe_sent_once.
  - intros st. by split.
  - intros st i Hc Hws Hopen.
    by apply (Hfirst (unsubscribe collection st) i).
Qed.

End SessionMoreFacts.

Lemma session_bounds_witness :
  let es := [Session.Connect; Session.Close 0; Session.Timeout 0; Session.Close 1] in
  exists st,
    Session.run JSONText.parse "key" Session.initial es = Some st
    /\ Session.wsReconnectAttempts st = 2
    /\ 0 <= Session.wsReconnectAttempts st <= Session.maxReconnectAttempts
    /\ Session.scheduled st = [2000; 4000].
Proof.
  intros es.
  destruct (Session.run JSONText.parse "key" Session.initial es) as [st|] eqn:Hrun;
    [|by vm_compute in Hrun].
  exists st. split; [done|].
  destruct (session_bounds JSONText.parse "key" es st Hrun) as (Ha & _).
  vm_compute in Hrun. injection Hrun as <-. by split_and!.
Defined.

(** X15.  Disconnecting a session that is already disconnected changes
    nothing: the second call finds no socket, and the flag and the
    subscription set are already cleared. *)
Theorem disconnect_twice (st : Session.state) :
  Session.disconnect (Session.disconnect st) = Session.disconnect st
  /\ Session.ws (Session.disconnect st) = None
  /\ Session.connected (Session.disconnect st) = false
  /\ Session.subscribedCollections (Session.disconnect st) = ∅
  /\ Session.sockets (Session.disconnect (Session.disconnect st))
     = Session.sockets (Session.disconnect st).
Proof.
  assert (Session.disconnect (Session.disconnect st) = Session.disconnect st) as H.
  { unfold Session.disconnect, Session.disconnectWebSocket.
    destruct (Session.ws st) eqn:E; simpl; [done|]. by rewrite E. }
  split; [exact H|]. rewrite H.
  unfold Session.disconnect, Session.disconnectWebSocket.
  by destruct (Session.ws st) eqn:E.
Qed.

Lemma subscribe_frames_witness :
  let ack := JSONText.dq "{'type':'connected'}" in
  let es := [Session.Connect; Session.Open 0; Session.Message 0 ack] in
  exists st,
    Session.run JSONText.parse "key" Session.initial es = Some st
    /\ (Session.connected st = true /\ Session.ws st = Some 0%nat
        /\ Session.sockets st !! 0%nat = Some Session.OPEN
        /\ "products" ∉ Session.subscribedCollections st)
    /\ Session.sent (Session.subscribe "products" st)
       = Session.sent st
         ++ [(0%nat, JS.JObj [("type", JS.JStr "subscribe");
                              ("collection", JS.JStr "products")])].
Proof.
  intros ack es.
  destruct (Session.run JSONText.parse "key" Session.initial es) as [st|] eqn:Hrun;
    [|by vm_compute in Hrun].
  exists st. split; [done|].
  vm_compute in Hrun. injection Hrun as <-.
  assert ("products" ∉ (∅ : gset string)) as Hnew by apply not_elem_of_empty.
  split; [by split_and!|].
  match goal with
  | |- context [Session.subscribe "products" ?s] =>
      exact (proj1 (proj1 (subscribe_frames "products") s 0%nat
                      eq_refl eq_refl eq_refl Hnew))
  end.
Defined.

(** ** Instant search: facet selections and settled searches *)

Section InstantSearchMoreFacts.
Import JS Executor InstantSearch Components.

Variable JSON_parse : string -> option json.
Variable URLSearchParams_toString : list (string * string) -> string.
Variable client : Executor.client.
Variable options : UseInstantSearchOptions.
Implicit Types (st : state) (fs : filter_state).

Lemma lookup_field_elem {V} (k : string) (v : V) (o : list (string * V)) :
  lookup_field k o = Some v -> (k, v) ∈ o.
Proof.
  induction o as [|[k0 v0] o IH]; simpl; [done|].
  destruct (decide (k0 = k)) as [->|Hne].
  - intros [= ->]. apply list_elem_of_here.
  - intros H. apply list_elem_of_further. by apply IH.
Qed.

Lemma Forall_replace_field {V} (P : string * V -> Prop) (k : string) (v : V)
  (o : list (string * V)) :
  P (k, v) -> Forall P o -> Forall P (replace_field k v o).
Proof.
  intros Hkv. induction 1 as [|[k0 v0] o H0 Ho IH]; simpl; [done|].
  destruct (decide (k0 = k)); by constructor.
Qed.

Lemma Forall_insert_index {V} (P : string * V -> Prop) (n : N) (k : string) (v : V)
  (o : list (string * V)) :
  P (k, v) -> Forall P o -> Forall P (insert_index n k v o).
Proof.
  intros Hkv. induction 1 as [|[k0 v0] o H0 Ho IH]; simpl; [by constructor|].
  destruct (array_index k0) as [m|]; [destruct (m <? n)%N|];
    repeat (constructor; try done).
Qed.

Lemma Forall_set_field {V} (P : string * V -> Prop) (k : string) (v : V)
  (o : list (string * V)) :
  P (k, v) -> Forall P o -> Forall P (set_field k v o).
Proof.
  intros Hkv Ho. unfold set_field. destruct (has_field k o).
  - by apply Forall_replace_field.
  - destruct (array_index k); [by apply Forall_insert_index|].
    apply Forall_app. split; [done|by constructor].
Qed.

Lemma Forall_without_field {V} (P : string * V -> Prop) (k : string)
  (o : list (string * V)) :
  Forall P o -> Forall P (without_field k o).
Proof.
  unfold without_field. rewrite !Forall_forall.
  intros Ho x [_ Hx]%list_elem_of_filter. by apply Ho.
Qed.

Lemma well_formed_lookup fs (field : string) :
  well_formed fs ->
  NoDup (default [] (lookup_field field fs))
  /\ (forall vs, lookup_field field fs = Some vs -> vs <> []).
Proof.
  intros Hwf. unfold well_formed in Hwf. rewrite Forall_forall in Hwf.
  destruct (lookup_field field fs) as [vs|] eqn:E; simpl.
  - apply lookup_field_elem, Hwf in E as [Hne Hnd]. split; [done|].
    by intros ? [= <-].
  - split; [constructor|done].
Qed.

Lemma filter_other_fresh (value : string) (vs : list string) :
  value ∉ vs -> filter (fun v => v ≠ value) (vs ++ [value]) = vs.
Proof.
  intros Hnew. rewrite filter_app.
  rewrite (filter_cons_False _ value) by (intros H; by apply H).
  rewrite filter_nil, app_nil_r.
  induction vs as [|v vs IH]; [done|].
  apply not_elem_of_cons in Hnew as [Hne Hnew].
  rewrite filter_cons_True by done. by rewrite IH.
Qed.

(** X16.  A facet checkbox that is ticked or cleared, and the button that
    clears all filters, keep the filter state well formed: no field is
    left with an empty list of values and no value is listed twice.  Each
    of them sends the view back to page 1. *)
Theorem facet_change_well_formed st (field value : string) (checked : bool) :
  well_formed (filters st) ->
  well_formed (filters (handleFacetChange field value checked st))
  /\ page (handleFacetChange field value checked st) = 1
  /\ well_formed (filters (clearFilters st))
  /\ page (clearFilters st) = 1.
Proof.
  intros Hwf. destruct (well_formed_lookup (filters st) field Hwf) as [Hnd Hne].
  split_and!; [|by destruct checked|constructor|done].
  destruct checked; simpl.
  - unfold addFilter_updater. case_bool_decide as Hin; simpl; [done|].
    apply Forall_set_field; [|done]. simpl. split.
    + by destruct (default [] (lookup_field field (filters st))).
    + apply NoDup_app. split_and!; [done| |apply NoDup_singleton].
      by intros x Hx ->%list_elem_of_singleton.
  - unfold removeFilter_updater. case_bool_decide as Hlen; simpl.
    + by apply Forall_without_field.
    + apply Forall_set_field; [|done]. simpl. split.
      * intros Hnil. by rewrite Hnil in Hlen.
      * by apply NoDup_filter.
Qed.

(** X17.  On a well-formed filter state the component shows its filters
    as active exactly when [performSearch] sends a filter expression. *)
Theorem hasActiveFilters_iff_filter_by st :
  well_formed (filters st) ->
  hasActiveFilters st = true <-> is_Some (build_filter_by (filters st)).
Proof.
  intros Hwf. unfold hasActiveFilters. rewrite build_filter_by_spec.
  destruct (filters st) as [|[f vs] fs]; simpl.
  - split; [done|]. by intros [? ?].
  - apply Forall_cons in Hwf as [[Hne _] _]. simpl in Hne.
    destruct vs as [|v vs]; [done|].
    split; [|done]. intros _.
    by destruct (spec_filter_expression fs).
Qed.

(** X18.  Ticking a facet value that was not selected and clearing it
    again restores the selection of every field. *)
Theorem tick_then_clear st (field value : string) :
  well_formed (filters st) ->
  value ∉ default [] (lookup_field field (filters st)) ->
  forall f,
    lookup_field f
      (filters (handleFacetChange field value false
                  (handleFacetChange field value true st)))
    = lookup_field f (filters st).
Proof.
  intros Hwf Hnew f. simpl.
  destruct (well_formed_lookup (filters st) field Hwf) as [_ Hne].
  assert (addFilter_updater field value (filters st)
          = set_field field (default [] (lookup_field field (filters st)) ++ [value])
                      (filters st)) as ->.
  { unfold addFilter_updater. by rewrite bool_decide_eq_false_2. }
  unfold removeFilter_updater.
  rewrite lookup_set_field. destruct (decide (field = field)); [|done]. simpl.
  rewrite filter_other_fresh by done.
  case_bool_decide as Hlen.
  - rewrite lookup_without_field, lookup_set_field.
    destruct (decide (field = f)) as [<-|]; [|done].
    destruct (lookup_field field (filters st)) as [vs|] eqn:E; [|done].
    simpl in Hlen. destruct vs; [|done]. by destruct (Hne [] eq_refl).
  - rewrite !lookup_set_field.
    destruct (decide (field = f)) as [<-|]; [|done].
    destruct (lookup_field field (filters st)) as [vs|] eqn:E; [done|].
    by simpl in Hlen.
Qed.

Lemma find_request_filter {V} (r r' : nat) (l : list (nat * V)) :
  find_request r' (filter (fun x => x.1 ≠ r) l)
  = if decide (r' = r) then None else find_request r' l.
Proof.
  induction l as [|[r0 v] l IH]; simpl.
  - by destruct (decide (r' = r)).
  - destruct (decide (r0 = r)) as [->|Hne].
    + rewrite filter_cons_False by (intros H; by apply H). rewrite IH.
      destruct (decide (r' = r)) as [->|Hne']; [done|].
      destruct (decide (r = r')); [by subst|done].
    + rewrite filter_cons_True by done. simpl. rewrite IH.
      destruct (decide (r0 = r')) as [->|]; [|done].
      by destruct (decide (r' = r)).
Qed.

Lemma performSearch_settled_fields (searchQuery : string) (outcome : completion json) st :
  let st' := performSearch_settled options searchQuery outcome st in
  loading st' = false /\ abortControllerRef st' = None
  /\ in_flight st' = in_flight st /\ platform st' = platform st
  /\ filters st' = filters st /\ page st' = page st /\ query st' = query st.
Proof.
  unfold performSearch_settled, notify. destruct outcome as [r|t].
  - destruct (decide (searchQuery = "")); [done|]. by destruct (onSearch options).
  - destruct (decide (name_of t = Some "AbortError")); [done|].
    by destruct (onError options).
Qed.

(** X19.  When any search in flight settles, whatever its outcome, the
    hook lowers [loading] and empties [abortControllerRef], and only that
    search leaves the searches in flight: the flag is down and the ref is
    empty although later searches may still be under way.  The query, the
    page and the filters are left as they are. *)
Theorem settle_lowers_loading st (r : nat) (env : transport) st' :
  step JSON_parse URLSearchParams_toString client options st (Settle r env) = Some st' ->
  loading st' = false
  /\ abortControllerRef st' = None
  /\ find_request r (in_flight st') = None
  /\ (forall r', r' <> r -> find_request r' (in_flight st') = find_request r' (in_flight st))
  /\ query st' = query st /\ page st' = page st /\ filters st' = filters st.
Proof.
  simpl. destruct (find_request r (in_flight st)) as [p|]; [|done].
  destruct (request_settle JSON_parse (pending_controller p) (pending_timeoutId p) env
              (platform st)) as [outcome pf].
  intros [= <-].
  destruct (performSearch_settled_fields (pending_query p) outcome
              (set_platform pf
                 (set_in_flight (filter (fun x => x.1 ≠ r) (in_flight st))
                    (next_request st) st)))
    as (Hl & Ha & Hf & _ & Hfs & Hp & Hq).
  rewrite Hl, Ha, Hf, Hfs, Hp, Hq. simpl.
  split_and!; try done.
  - rewrite find_request_filter. by destruct (decide (r = r)).
  - intros r' Hne. rewrite find_request_filter. by destruct (decide (r' = r)).
Qed.

(** X20.  The parameters [search] puts in the query string for a
    [performSearch] of the hook.  [q] is the query text, or [*] when the
    text is empty.  [filter_by] is present exactly when some field has a
    selected value, and is then the compiled expression; [facet_by] and
    [sort_by] are present exactly when facet fields were configured and a
    sort order is set.  The parameters keep the order of the object
    literal. *)
Theorem search_parameters st (searchQuery : string) (currentPage : Z) :
  let entries :=
    search_entries (build_searchParams options st searchQuery currentPage) in
  entries.*1
  = ["q"; "collection"; "query_by"]
    ++ from_option (fun _ => ["filter_by"]) [] (build_filter_by (filters st))
    ++ from_option (fun _ => ["facet_by"]) [] (facetFields options)
    ++ from_option (fun _ => ["sort_by"]) [] (sortBy st)
    ++ ["page"; "per_page"]
  /\ lookup_field "q" entries
     = Some (if decide (searchQuery = "") then "*" else searchQuery)
  /\ lookup_field "filter_by" entries = build_filter_by (filters st)
  /\ lookup_field "facet_by" entries = join "," <$> facetFields options
  /\ lookup_field "sort_by" entries = sortBy st.
Proof.
  cbv zeta. unfold search_entries, build_searchParams. simpl.
  destruct (build_filter_by (filters st)), (facetFields options), (sortBy st);
    simpl; by split_and!.
Qed.

End InstantSearchMoreFacts.

Lemma facet_change_well_formed_witness :
  let options := InstantSearch.mkOptions "products" ["name"] None 10 [] None true true in
  let st := InstantSearch.setFilters [("category", ["Electronics"; "Audio"])]
              (InstantSearch.initial options) in
  InstantSearch.well_formed (InstantSearch.filters st)
  /\ InstantSearch.filters (Components.handleFacetChange "category" "Audio" false st)
     = [("category", ["Electronics"])]
  /\ InstantSearch.well_formed
       (InstantSearch.filters (Components.handleFacetChange "category" "Audio" false st)).
Proof.
  intros options st.
  assert (InstantSearch.well_formed (InstantSearch.filters st)) as Hwf.
  { repeat constructor; [done|..]; apply (bool_decide_unpack _); vm_compute; exact I. }
  split; [exact Hwf|]. split; [vm_compute; reflexivity|].
  exact (proj1 (facet_change_well_formed st "category" "Audio" false Hwf)).
Defined.

Lemma hasActiveFilters_iff_filter_by_witness :
  let options := InstantSearch.mkOptions "products" ["name"] None 10 [] None true true in
  let st := InstantSearch.setFilters [("category", ["Electronics"])]
              (InstantSearch.initial options) in
  InstantSearch.well_formed (InstantSearch.filters st)
  /\ Components.hasActiveFilters st = true
  /\ is_Some (InstantSearch.build_filter_by (InstantSearch.filters st)).
Proof.
  intros options st.
  assert (InstantSearch.well_formed (InstantSearch.filters st)) as Hwf.
  { repeat constructor; [done|..]; apply (bool_decide_unpack _); vm_compute; exact I. }
  assert (Components.hasActiveFilters st = true) as Hactive by reflexivity.
  split; [exact Hwf|]. split; [exact Hactive|].
  exact (proj1 (hasActiveFilters_iff_filter_by st Hwf) Hactive).
Defined.

Lemma tick_then_clear_witness :
  let options := InstantSearch.mkOptions "products" ["name"] None 10 [] None true true in
  let st := InstantSearch.setFilters [("category", ["Electronics"])]
              (InstantSearch.initial options) in
  (InstantSearch.well_formed (InstantSearch.filters st)
   /\ "Nikon" ∉ default [] (JS.lookup_field "brand" (InstantSearch.filters st)))
  /\ JS.lookup_field "brand"
       (InstantSearch.filters
          (Components.handleFacetChange "brand" "Nikon" false
             (Components.handleFacetChange "brand" "Nikon" true st)))
     = None.
Proof.
  intros options st.
  assert (InstantSearch.well_formed (InstantSearch.filters st)) as Hwf.
  { repeat constructor; [done|..]; apply (bool_decide_unpack _); vm_compute; exact I. }
  assert ("Nikon" ∉ default [] (JS.lookup_field "brand" (InstantSearch.filters st)))
    as Hnew by apply not_elem_of_nil.
  split; [by split|].
  exact (tick_then_clear st "brand" "Nikon" Hwf Hnew "brand").
Defined.

Lemma settle_lowers_loading_witness :
  let options := InstantSearch.mkOptions "products" ["name"] None 10 [] None true true in
  let cl := Executor.constructor (Executor.mkConfig "key" None None None) in
  let body := JSONText.dq "{'found':1,'hits':['lap']}" in
  let go := InstantSearch.run JSONText.parse (fun _ => "") cl options
              (InstantSearch.initial options) in
  exists st st',
    go [InstantSearch.Search; InstantSearch.Search] = Some st
    /\ InstantSearch.step JSONText.parse (fun _ => "") cl options st
         (InstantSearch.Settle 0 (Executor.HeadersArrive (Executor.mkResponse 200 "OK" body)))
       = Some st'
    /\ InstantSearch.loading st' = false
    /\ InstantSearch.abortControllerRef st' = None
    /\ is_Some (InstantSearch.find_request 1 (InstantSearch.in_flight st')).
Proof.
  intros options cl body go.
  destruct (go [InstantSearch.Search; InstantSearch.Search]) as [st|] eqn:Hrun;
    [|by vm_compute in Hrun].
  destruct (InstantSearch.step JSONText.parse (fun _ => "") cl options st
              (InstantSearch.Settle 0
                 (Executor.HeadersArrive (Executor.mkResponse 200 "OK" body))))
    as [st'|] eqn:Hstep;
    [|by vm_compute in Hrun; injection Hrun as <-; vm_compute in Hstep].
  exists st, st'. split; [done|]. split; [done|].
  destruct (settle_lowers_loading JSONText.parse (fun _ => "") cl options st 0%nat _ st'
              Hstep)
    as (Hl & Ha & _ & Hkeep & _).
  split; [exact Hl|]. split; [exact Ha|].
  rewrite (Hkeep 1%nat) by done.
  vm_compute in Hrun. injection Hrun as <-. by eexists.
Defined.

(** ** The client's configuration *)

